(** * LinkedIn-Lead-Scraper: contact aggregation and e-mail synthesis

    A shallow embedding of [utils/email_utils.py] (class [EmailExtractor])
    and [utils/web_utils.py] (class [WebsiteAnalyzer]), followed by the
    properties of the specification that were checked against it.

    Conventions of the embedding.
    - A Python [str] is a Rocq [string]; a character is one of the 256
      code points of [ascii] (Latin-1).  Character classes, whitespace and
      [str.lower] are written out for that range.
    - A Python exception is a value [Raise e] of the type [result]; a
      [try ... except Exception] is a [match] on it.
    - A Python [set] is a [gset], a [dict] whose order is never observed is
      a [gmap]; the counting dictionary of [detect_email_pattern], whose
      iteration order decides the answer of [max], is an association list
      in insertion order.
    - Regular expressions are values of the type [regex], run by a
      backtracking matcher that tries the alternatives in the order of
      Python's [re] module (greedy first).
    - [time.sleep], [random.uniform] and [print] have no effect on the
      values returned and are left out. *)

From Stdlib Require Import ZArith Ascii String List Lia.
From stdpp Require Import gmap strings list fin_maps.

#[local] Set Warnings "-clear-no-such-hyp".
Local Open Scope string_scope.
Local Open Scope nat_scope.

(** ** Exceptions *)

Inductive exn : Type :=
| ValueError
| IndexError
| KeyError
| RequestException (msg : string)
| OtherError (msg : string).

Inductive result (A : Type) : Type :=
| Ok (a : A)
| Raise (e : exn).

Arguments Ok {A} a.
Arguments Raise {A} e.

#[global] Instance result_ret : MRet result := λ A a, Ok a.

#[global] Instance result_bind : MBind result := λ A B k r,
  match r with
  | Ok a => k a
  | Raise e => Raise e
  end.

(** [l[i]] on a Python list. *)
Definition py_index {A : Type} (l : list A) (i : nat) : result A :=
  match l !! i with
  | Some a => Ok a
  | None => Raise IndexError
  end.

(** ** Characters and strings *)

Module Str.

Definition code (c : ascii) : nat := nat_of_ascii c.

Definition between (lo hi : nat) (c : ascii) : bool :=
  (lo <=? code c) && (code c <=? hi).

Definition is_char (x : ascii) (c : ascii) : bool := Ascii.eqb x c.

(** [\d] *)
Definition is_digit (c : ascii) : bool := between 48 57 c.
(** [[a-z]] *)
Definition is_lower (c : ascii) : bool := between 97 122 c.
(** [[A-Z]] *)
Definition is_upper (c : ascii) : bool := between 65 90 c.
(** [[a-zA-Z]] *)
Definition is_alpha (c : ascii) : bool := is_lower c || is_upper c.
(** [\s] and [str.isspace]: tab to carriage return, the four separators
    28..31, the space, NEL (133) and the no-break space (160). *)
Definition is_space (c : ascii) : bool :=
  between 9 13 c || between 28 32 c || (code c =? 133) || (code c =? 160).

(** [str.lower] on one character: A-Z and the Latin-1 capitals. *)
Definition lower_char (c : ascii) : ascii :=
  if is_upper c || between 192 214 c || between 216 222 c
  then ascii_of_nat (code c + 32) else c.

Fixpoint lower (s : string) : string :=
  match s with
  | EmptyString => EmptyString
  | String c s' => String (lower_char c) (lower s')
  end.

Fixpoint filter (p : ascii → bool) (s : string) : string :=
  match s with
  | EmptyString => EmptyString
  | String c s' => if p c then String c (filter p s') else filter p s'
  end.

(** [all(p(c) for c in s)] *)
Fixpoint all_chars (p : ascii → bool) (s : string) : bool :=
  match s with
  | EmptyString => true
  | String c s' => p c && all_chars p s'
  end.

(** [s[:n]] and [s[n:]] *)
Fixpoint take (n : nat) (s : string) : string :=
  match n, s with
  | S k, String c s' => String c (take k s')
  | _, _ => EmptyString
  end.

Fixpoint drop (n : nat) (s : string) : string :=
  match n, s with
  | S k, String _ s' => drop k s'
  | _, _ => s
  end.

(** [s[i:j]] *)
Definition slice (i j : nat) (s : string) : string := take (j - i) (drop i s).

(** [s.startswith(p)], returning what follows the prefix. *)
Fixpoint strip_prefix (p s : string) : option string :=
  match p, s with
  | EmptyString, _ => Some s
  | String a p', String b s' => if Ascii.eqb a b then strip_prefix p' s' else None
  | String _ _, EmptyString => None
  end.

(** [needle in hay] *)
Fixpoint contains (needle hay : string) : bool :=
  match strip_prefix needle hay with
  | Some _ => true
  | None =>
      match hay with
      | EmptyString => false
      | String _ hay' => contains needle hay'
      end
  end.

(** [c in s] for one character. *)
Fixpoint has_char (x : ascii) (s : string) : bool :=
  match s with
  | EmptyString => false
  | String c s' => Ascii.eqb x c || has_char x s'
  end.

(** [s.split(sep)] for a separator of one character: never empty, one
    more part than there are separators. *)
Fixpoint split_on (sep : ascii) (s : string) : list string :=
  match s with
  | EmptyString => [EmptyString]
  | String c s' =>
      if Ascii.eqb c sep then EmptyString :: split_on sep s'
      else match split_on sep s' with
           | p :: ps => String c p :: ps
           | [] => [String c EmptyString]
           end
  end.

(** [s.split()]: maximal runs of non-whitespace; [tok] is the run being
    read. *)
Fixpoint split_ws_from (tok : string) (s : string) : list string :=
  match s with
  | EmptyString => match tok with EmptyString => [] | _ => [tok] end
  | String c s' =>
      if is_space c
      then match tok with
           | EmptyString => split_ws_from EmptyString s'
           | _ => tok :: split_ws_from EmptyString s'
           end
      else split_ws_from (tok ++ String c EmptyString) s'
  end.

Definition split_ws (s : string) : list string := split_ws_from EmptyString s.

(** [s.strip(x)] for one character [x]. *)
Fixpoint lstrip (x : ascii) (s : string) : string :=
  match s with
  | EmptyString => EmptyString
  | String c s' => if Ascii.eqb c x then lstrip x s' else s
  end.

Fixpoint rstrip (x : ascii) (s : string) : string :=
  match s with
  | EmptyString => EmptyString
  | String c s' =>
      match rstrip x s' with
      | EmptyString => if Ascii.eqb c x then EmptyString else String c EmptyString
      | r => String c r
      end
  end.

Definition strip (x : ascii) (s : string) : string := rstrip x (lstrip x s).

(** [s[0] if s else ''] *)
Definition initial (s : string) : string :=
  match s with
  | EmptyString => EmptyString
  | String c _ => String c EmptyString
  end.

End Str.

(** ** Regular expressions *)

Module Re.

(** The fragment of Python's [re] syntax the program uses.  [Cls p lo hi]
    is a character class under a greedy counted repetition: [c] is
    [Cls c 1 (Some 1)], [c?] is [Cls c 0 (Some 1)], [c+] is
    [Cls c 1 None], [c{m,n}] is [Cls c m (Some n)]. *)
Inductive regex : Type :=
| Lit (s : string)
| Cls (p : ascii → bool) (lo : nat) (hi : option nat)
| Seq (r1 r2 : regex)
| Alt (r1 r2 : regex)
| Opt (r : regex)
| Eos.

(** How many leading characters of [s] satisfy [p], at most [cap]. *)
Fixpoint run_length (p : ascii → bool) (cap : option nat) (s : string) : nat :=
  match cap, s with
  | Some 0, _ => 0
  | _, EmptyString => 0
  | _, String c s' =>
      if p c then S (run_length p (pred <$> cap) s') else 0
  end.

(** Try the continuation after [lo + extra] characters, then after one
    fewer, down to [lo]: the greedy order. *)
Fixpoint give_back {B : Type} (s : string) (lo extra : nat)
    (k : string → option B) : option B :=
  match k (Str.drop (lo + extra) s) with
  | Some b => Some b
  | None =>
      match extra with
      | 0 => None
      | S e => give_back s lo e k
      end
  end.

(** [$] without MULTILINE: at the end, or before a final newline. *)
Definition at_end (s : string) : bool :=
  match s with
  | EmptyString => true
  | String c EmptyString => Str.code c =? 10
  | _ => false
  end.

(** Backtracking match of [r] at the start of [s]; [k] receives what is
    left of [s] and may refuse it, which makes the matcher try its next
    alternative. *)
Fixpoint bt {B : Type} (r : regex) (s : string) (k : string → option B) : option B :=
  match r with
  | Lit l =>
      match Str.strip_prefix l s with
      | Some rest => k rest
      | None => None
      end
  | Cls p lo hi =>
      let n := run_length p hi s in
      if n <? lo then None else give_back s lo (n - lo) k
  | Seq r1 r2 => bt r1 s (fun rest => bt r2 rest k)
  | Alt r1 r2 =>
      match bt r1 s k with
      | Some b => Some b
      | None => bt r2 s k
      end
  | Opt r1 =>
      match bt r1 s k with
      | Some b => Some b
      | None => k s
      end
  | Eos => if at_end s then k s else None
  end.

(** The text between a position [s] and a later position [rest]. *)
Definition consumed (s rest : string) : string :=
  Str.take (String.length s - String.length rest) s.

(** The whole match of [r] at the start of [s] and its length. *)
Definition match_here (r : regex) (s : string) : option (string * nat) :=
  bt r s (fun rest => Some (consumed s rest, String.length s - String.length rest)).

(** [pre(grp)]: the text of the group, and the length of the whole match. *)
Definition match_group (pre grp : regex) (s : string) : option (string * nat) :=
  bt pre s (fun r1 =>
    bt grp r1 (fun r2 =>
      Some (consumed r1 r2, String.length s - String.length r2))).

(** [(g1)?(g2)]: both groups, an absent group being the empty string as in
    the tuples of [re.findall]. *)
Definition match_opt_pair (g1 g2 : regex) (s : string)
    : option ((string * string) * nat) :=
  match bt g1 s (fun r1 =>
          bt g2 r1 (fun r2 =>
            Some (consumed s r1, consumed r1 r2,
                  String.length s - String.length r2))) with
  | Some x => Some x
  | None =>
      bt g2 s (fun r2 =>
        Some (EmptyString, consumed s r2, String.length s - String.length r2))
  end.

(** The scan of [re.findall] and [re.sub]: [m] is the match attempt at a
    position, giving a value and the number of characters matched; after a
    match the scan resumes behind it ([skip] counts the characters still to
    pass).  No pattern of this program matches the empty string. *)
Fixpoint scan {A : Type} (m : string → option (A * nat)) (skip : nat)
    (s : string) : list A :=
  match s with
  | EmptyString => []
  | String _ s' =>
      match skip with
      | S j => scan m j s'
      | 0 =>
          match m s with
          | Some (a, n) => a :: scan m (pred n) s'
          | None => scan m 0 s'
          end
      end
  end.

(** [re.sub(r, '', s)]: the characters outside every match. *)
Fixpoint delete_scan (m : string → option nat) (skip : nat) (s : string) : string :=
  match s with
  | EmptyString => EmptyString
  | String c s' =>
      match skip with
      | S j => delete_scan m j s'
      | 0 =>
          match m s with
          | Some (S n) => delete_scan m n s'
          | _ => String c (delete_scan m 0 s')
          end
      end
  end.

Definition sub_empty (r : regex) (s : string) : string :=
  delete_scan (fun s => snd <$> match_here r s) 0 s.

Definition findall (r : regex) (s : string) : list string :=
  scan (match_here r) 0 s.

Definition findall_group (pre grp : regex) (s : string) : list string :=
  scan (match_group pre grp) 0 s.

Definition findall_opt_pair (g1 g2 : regex) (s : string) : list (string * string) :=
  scan (match_opt_pair g1 g2) 0 s.

(** [re.search(pre(grp), s).group(1)], [None] when nothing matches. *)
Fixpoint search_group (pre grp : regex) (s : string) : option string :=
  match match_group pre grp s with
  | Some (g, _) => Some g
  | None =>
      match s with
      | EmptyString => None
      | String _ s' => search_group pre grp s'
      end
  end.

(** [re.match(r, s)] as a truth value. *)
Definition matches (r : regex) (s : string) : bool :=
  match match_here r s with
  | Some _ => true
  | None => false
  end.

End Re.

(** ** [utils/email_utils.py]: class [EmailExtractor] *)

Module EmailExtractor.

Import Re.

(** [[a-zA-Z0-9._%+-]] *)
Definition local_char (c : ascii) : bool :=
  Str.is_alpha c || Str.is_digit c || Str.has_char c "._%+-".

(** [[a-zA-Z0-9.-]] *)
Definition domain_char (c : ascii) : bool :=
  Str.is_alpha c || Str.is_digit c || Str.has_char c ".-".

(** [self.email_pattern = r'[a-zA-Z0-9._%+-]+@[a-zA-Z0-9.-]+\.[a-zA-Z]{2,}'] *)
Definition email_pattern : regex :=
  Seq (Cls local_char 1 None)
 (Seq (Lit "@")
 (Seq (Cls domain_char 1 None)
 (Seq (Lit ".")
      (Cls Str.is_alpha 2 None)))).

(** The named fields of the format strings. *)
Inductive field : Type := First | Last | First_initial | Last_initial | Domain.

Inductive piece : Type :=
| Txt (s : string)
| Fld (f : field).

(** [self.email_formats] *)
Definition email_formats : list (list piece) :=
  [ [Fld First; Txt "."; Fld Last; Txt "@"; Fld Domain];
    [Fld First_initial; Fld Last; Txt "@"; Fld Domain];
    [Fld First; Txt "@"; Fld Domain];
    [Fld Last; Txt "@"; Fld Domain];
    [Fld First_initial; Txt "."; Fld Last; Txt "@"; Fld Domain];
    [Fld First; Fld Last_initial; Txt "@"; Fld Domain];
    [Fld First; Txt "_"; Fld Last; Txt "@"; Fld Domain] ].

(** [format_str.format(first=..., last=..., ...)] *)
Fixpoint format (format_str : list piece) (env : field → string) : string :=
  match format_str with
  | [] => EmptyString
  | Txt s :: rest => s ++ format rest env
  | Fld f :: rest => env f ++ format rest env
  end.

(** [list(set(xs))]: the elements without repetition; Python leaves their
    order unspecified, here it is the order of [elements]. *)
Definition list_set (xs : list string) : list string :=
  elements (list_to_set xs : gset string).

Definition extract_emails_from_text (text : string) : list string :=
  if String.eqb text EmptyString then []
  else list_set (findall email_pattern text).

(** [r'^[a-z][a-z]{2,}$'], used with [re.match]. *)
Definition initial_last_pattern : regex :=
  Seq (Cls Str.is_lower 1 (Some 1)) (Seq (Cls Str.is_lower 2 None) Eos).

(** The body of the loop over [usernames]. *)
Definition classify (username : string) : string :=
  if Str.has_char "." username then "first.last"
  else if Str.has_char "_" username then "first_last"
  else if String.length username <=? 2 then "initials"
  else if matches initial_last_pattern username then "firstinitiallast"
  else "unknown".

(** The body of the loop over [emails]: [domains.add], [usernames.append]. *)
Definition collect (acc : gset string * list string) (email : string)
    : gset string * list string :=
  match Str.split_on "@" email with
  | [username; domain] => ({[domain]} ∪ acc.1, (acc.2 ++ [username])%list)
  | _ => acc
  end.

(** [pattern_counts]: a dict in insertion order. *)
Fixpoint dict_get (k : string) (d : list (string * nat)) : option nat :=
  match d with
  | [] => None
  | (k', v) :: d' => if String.eqb k k' then Some v else dict_get k d'
  end.

(** [d[k] = v]: in place when [k] is a key, at the end otherwise. *)
Fixpoint dict_set (k : string) (v : nat) (d : list (string * nat))
    : list (string * nat) :=
  match d with
  | [] => [(k, v)]
  | (k', v') :: d' =>
      if String.eqb k k' then (k, v) :: d' else (k', v') :: dict_set k v d'
  end.

(** [pattern_counts[pattern] = pattern_counts.get(pattern, 0) + 1] *)
Definition count_pattern (pattern_counts : list (string * nat)) (pattern : string)
    : list (string * nat) :=
  dict_set pattern (default 0 (dict_get pattern pattern_counts) + 1) pattern_counts.

(** [max(items, key=lambda x: x[1])]: the running maximum is replaced only
    by a strictly greater item, so the first maximal item is returned;
    [ValueError] on an empty sequence. *)
Fixpoint max_from (best : string * nat) (items : list (string * nat)) : string * nat :=
  match items with
  | [] => best
  | item :: rest => max_from (if best.2 <? item.2 then item else best) rest
  end.

Definition py_max_by_count (items : list (string * nat)) : result (string * nat) :=
  match items with
  | [] => Raise ValueError
  | item :: rest => Ok (max_from item rest)
  end.

Definition detect_email_pattern (emails : list string) : result (option string) :=
  if length emails <? 2 then Ok None
  else
    let '(domains, usernames) := fold_left collect emails (∅, []) in
    if negb (size domains =? 1) then Ok None
    else
      domain ← py_index (elements domains) 0;
      let patterns := map classify usernames in
      let pattern_counts := fold_left count_pattern patterns [] in
      most_common ← py_max_by_count pattern_counts;
      Ok (Some most_common.1).

(** [r'https?://(?:www\.)?([^/]+)']: what precedes the group, and the
    group. *)
Definition website_prefix : regex :=
  Seq (Lit "http")
 (Seq (Cls (Str.is_char "s") 0 (Some 1))
 (Seq (Lit "://")
      (Opt (Lit "www.")))).

Definition website_host : regex :=
  Cls (fun c => negb (Str.is_char "/" c)) 1 None.

(** [name_parts[-1]] *)
Definition py_last {A : Type} (l : list A) : result A :=
  py_index l (length l - 1).

(** The branch on a detected [pattern]; [None] when no branch returns. *)
Definition render (pattern first_name last_name first_initial last_initial domain : string)
    : option string :=
  if String.eqb pattern "first.last" then
    Some (first_name ++ "." ++ last_name ++ "@" ++ domain)
  else if String.eqb pattern "first_last" then
    Some (first_name ++ "_" ++ last_name ++ "@" ++ domain)
  else if String.eqb pattern "initials" then
    Some (first_initial ++ last_initial ++ "@" ++ domain)
  else if String.eqb pattern "firstinitiallast" then
    Some (first_initial ++ last_name ++ "@" ++ domain)
  else None.

(** [known_emails] is [None] when the argument is left out.  The result is
    [Ok None] for Python's [return None]. *)
Definition generate_likely_email (name company_name company_website : string)
    (known_emails : option (list string)) : result (option string) :=
  if String.eqb name EmptyString || String.eqb name "Unknown" || String.eqb company_website EmptyString
  then Ok None
  else
    match search_group website_prefix website_host company_website with
    | None => Ok None
    | Some domain =>
        let name_parts := Str.split_ws (Str.lower name) in
        if length name_parts <? 2 then Ok None
        else
          first_name ← py_index name_parts 0;
          last_name ← py_last name_parts;
          let first_initial := Str.initial first_name in
          let last_initial := Str.initial last_name in
          from_pattern ←
            match known_emails with
            | Some (e :: es) =>
                pattern ← detect_email_pattern (e :: es);
                match pattern with
                | Some p =>
                    if String.eqb p EmptyString then Ok None
                    else Ok (render p first_name last_name
                               first_initial last_initial domain)
                | None => Ok None
                end
            | _ => Ok None
            end;
          match from_pattern with
          | Some email => Ok (Some email)
          | None =>
              let env f :=
                match f with
                | First => first_name
                | Last => last_name
                | First_initial => first_initial
                | Last_initial => last_initial
                | Domain => domain
                end in
              let email_candidates := map (fun format_str => format format_str env) email_formats in
              Ok (head email_candidates)
          end
    end.

End EmailExtractor.

(** ** [utils/web_utils.py]: class [WebsiteAnalyzer] *)

Module WebsiteAnalyzer.

Import Re.

(** [self.email_pattern], the same expression as in [EmailExtractor]. *)
Definition email_pattern : regex := EmailExtractor.email_pattern.

(** [[-.\s]] *)
Definition phone_sep (c : ascii) : bool := Str.has_char c "-." || Str.is_space c.

(** [self.phone_pattern =
     r'(\+\d{1,3}[-.\s]?)?(\(?\d{3}\)?[-.\s]?\d{3}[-.\s]?\d{4})']: the
    two groups. *)
Definition phone_country : regex :=
  Seq (Lit "+") (Seq (Cls Str.is_digit 1 (Some 3)) (Cls phone_sep 0 (Some 1))).

Definition phone_local : regex :=
  Seq (Cls (Str.is_char "(") 0 (Some 1))
 (Seq (Cls Str.is_digit 3 (Some 3))
 (Seq (Cls (Str.is_char ")") 0 (Some 1))
 (Seq (Cls phone_sep 0 (Some 1))
 (Seq (Cls Str.is_digit 3 (Some 3))
 (Seq (Cls phone_sep 0 (Some 1))
      (Cls Str.is_digit 4 (Some 4))))))).

(** The class of the handle group: no slash, no double quote (code 34),
    no whitespace. *)
Definition handle_char (c : ascii) : bool :=
  negb (Str.is_char "/" c || (Str.code c =? 34) || Str.is_space c).

Definition handle : regex := Cls handle_char 1 None.

(** [self.social_patterns]: platform, what precedes the group; the group
    is [handle] in all five. *)
Definition social_patterns : list (string * regex) :=
  [ ("linkedin", Seq (Lit "linkedin.com/") (Seq (Alt (Lit "company") (Lit "school")) (Lit "/")));
    ("twitter", Seq (Alt (Lit "twitter.com") (Lit "x.com")) (Lit "/"));
    ("facebook", Lit "facebook.com/");
    ("instagram", Lit "instagram.com/");
    ("youtube", Seq (Lit "youtube.com/")
                 (Seq (Alt (Lit "channel") (Alt (Lit "user") (Lit "c"))) (Lit "/"))) ].

(** [self.contact_keywords] *)
Definition contact_keywords : list string :=
  ["contact"; "about"; "team"; "connect"; "reach"; "support"].

Definition _extract_emails (text : string) : list string :=
  if String.eqb text EmptyString then []
  else
    List.filter
      (fun email =>
         negb (Str.contains "@example" email || Str.contains "@domain" email
               || Str.contains "@email" email)
         && negb (Str.contains ".jpg@" email || Str.contains ".png@" email
                  || Str.contains ".gif@" email))
      (findall email_pattern text).

(** [''.join(part for part in match if part)] over the two groups. *)
Definition _extract_phone_numbers (text : string) : list string :=
  if String.eqb text EmptyString then []
  else map (fun m => m.1 ++ m.2) (findall_opt_pair phone_country phone_local text).

Definition _format_phone_number (phone : string) : string :=
  let digits := sub_empty (Cls (fun c => negb (Str.is_digit c)) 1 (Some 1)) phone in
  if String.length digits =? 10 then
    "(" ++ Str.slice 0 3 digits ++ ") " ++ Str.slice 3 6 digits ++ "-" ++ Str.drop 6 digits
  else if String.length digits =? 11 then
    "+" ++ Str.slice 0 1 digits ++ " (" ++ Str.slice 1 4 digits ++ ") "
        ++ Str.slice 4 7 digits ++ "-" ++ Str.drop 7 digits
  else phone.

(** [r'\?.*$']: a question mark and the rest of the line. *)
Definition query_string : regex :=
  Seq (Lit "?") (Seq (Cls (fun c => negb (Str.code c =? 10)) 0 None) Eos).

(** Modelled from the spec: the source of [_extract_social_media] stops
    inside the call that removes the query string; the two statements that
    follow (store the handle under its platform, return the dict) are taken
    from section 4.1: one pattern per platform, the first match kept. *)
Definition _extract_social_media (text : string) : gmap string string :=
  fold_left
    (fun (social_media : gmap string string) '(platform, pattern) =>
       match findall_group pattern handle text with
       | first_match :: _ =>
           <[platform := sub_empty query_string (Str.strip "/" first_match)]> social_media
       | [] => social_media
       end)
    social_patterns ∅.

(** The dict being built: its three keys are set by the literal at the top
    of [analyze_website] and never removed. *)
Record contact_info : Type := {
  emails : list string;
  phone_numbers : list string;
  social_media : gmap string string
}.

(** What [_analyze_contact_page] returns: a dict read with
    [.get(key, default)], so each key may be absent. *)
Record page_info : Type := {
  page_emails : option (list string);
  page_phone_numbers : option (list string);
  page_social_media : option (gmap string string)
}.

Definition no_page_info : page_info :=
  {| page_emails := None; page_phone_numbers := None; page_social_media := None |}.

(** The values of the returned dict. *)
Inductive value : Type :=
| VList (l : list string)
| VDict (d : gmap string string).

Definition to_dict (ci : contact_info) : gmap string value :=
  <["emails" := VList (emails ci)]>
    (<["phone_numbers" := VList (phone_numbers ci)]>
       (<["social_media" := VDict (social_media ci)]> ∅)).

(** The three statements on the main page: two [extend] and one
    [update], which lets the new handles overwrite. *)
Definition add_main_page (text : string) (ci : contact_info) : contact_info :=
  {| emails := (emails ci ++ _extract_emails text)%list;
     phone_numbers := (phone_numbers ci ++ _extract_phone_numbers text)%list;
     social_media := _extract_social_media text ∪ social_media ci |}.

(** [for platform, handle in ....items(): if platform not in ...: ...] *)
Definition add_social (found : gmap string string) (known : gmap string string)
    : gmap string string :=
  map_fold
    (fun platform handle (acc : gmap string string) =>
       match acc !! platform with
       | Some _ => acc
       | None => <[platform := handle]> acc
       end)
    known found.

(** The body of the loop over the contact pages. *)
Definition add_contact_page (info : page_info) (ci : contact_info) : contact_info :=
  {| emails := (emails ci ++ default [] (page_emails info))%list;
     phone_numbers := (phone_numbers ci ++ default [] (page_phone_numbers info))%list;
     social_media :=
       match page_social_media info with
       | Some found => if decide (found = ∅) then social_media ci
                       else add_social found (social_media ci)
       | None => social_media ci
       end |}.

(** The statements under [# Remove duplicates]. *)
Definition remove_duplicates (ci : contact_info) : contact_info :=
  {| emails := EmailExtractor.list_set (emails ci);
     phone_numbers := EmailExtractor.list_set (map _format_phone_number (phone_numbers ci));
     social_media := social_media ci |}.

Section Analyze.

(** [requests.get(url, headers=self.headers, timeout=timeout)]: the status
    code and the text of the response, or the exception raised (timeout,
    connection error, ...). *)
Variable requests_get : string → result (Z * string).

(** [_make_request]: both failures end in [return None]. *)
Definition _make_request (url : string) : option string :=
  match requests_get url with
  | Ok (status_code, text) => if (status_code =? 200)%Z then Some text else None
  | Raise _ => None
  end.

(** Modelled from the spec: [_analyze_contact_page] is called by
    [analyze_website] but its body is not in the sources.  Section 4.6,
    step 4: fetch the page; on failure skip it; on success extract as on
    the main page. *)
Definition _analyze_contact_page (url : string) : result page_info :=
  match _make_request url with
  | None => Ok no_page_info
  | Some text =>
      Ok {| page_emails := Some (_extract_emails text);
            page_phone_numbers := Some (_extract_phone_numbers text);
            page_social_media := Some (_extract_social_media text) |}
  end.

(** [BeautifulSoup(response.text, 'html.parser')] followed by
    [self._find_contact_pages(website_url, soup)]: the body of
    [_find_contact_pages] is not in the sources, so the list of links it
    returns (or the exception it raises) is a parameter. *)
Variable find_contact_pages : string → string → result (list string).

(** The helper called on each link; [_analyze_contact_page] above is the
    instance the specification describes. *)
Variable analyze_contact_page : string → result page_info.

(** [for link in contact_links[:3]: ...]; an exception leaves the loop
    with the dict as it is at that point. *)
Fixpoint contact_loop (links : list string) (ci : contact_info)
    : result unit * contact_info :=
  match links with
  | [] => (Ok (), ci)
  | link :: rest =>
      match analyze_contact_page link with
      | Ok contact_page_info => contact_loop rest (add_contact_page contact_page_info ci)
      | Raise e => (Raise e, ci)
      end
  end.

(** The body of the [try]. *)
Definition try_body (website_url : string) (ci : contact_info)
    : result unit * contact_info :=
  match _make_request website_url with
  | None => (Ok (), ci)
  | Some text =>
      let ci := add_main_page text ci in
      match find_contact_pages website_url text with
      | Raise e => (Raise e, ci)
      | Ok contact_links =>
          match contact_loop (take 3 contact_links) ci with
          | (Ok _, ci) => (Ok (), remove_duplicates ci)
          | (Raise e, ci) => (Raise e, ci)
          end
      end
  end.

(** [website_url] is [None] for Python's [None].  Both arms of the [try]
    end in [return contact_info]. *)
Definition analyze_website (website_url : option string) : gmap string value :=
  match website_url with
  | None => ∅
  | Some url =>
      if String.eqb url EmptyString then ∅
      else
        let contact_info := {| emails := []; phone_numbers := []; social_media := ∅ |} in
        match try_body url contact_info with
        | (Ok _, ci) => to_dict ci
        | (Raise _, ci) => to_dict ci
        end
  end.

End Analyze.

(** The analysis with the contact-page helper of the specification. *)
Definition analyze (requests_get : string → result (Z * string))
    (find_contact_pages : string → string → result (list string))
    (website_url : option string) : gmap string value :=
  analyze_website requests_get find_contact_pages
    (_analyze_contact_page requests_get) website_url.

End WebsiteAnalyzer.

(** ** Vocabulary of the specification *)

Module Spec.

(** The local part and the domain of an address with exactly one at sign. *)
Definition parse_email (email : string) : option (string * string) :=
  match Str.split_on "@" email with
  | [username; domain] => Some (username, domain)
  | _ => None
  end.

(** The addresses of a list that have a local part and a domain. *)
Definition parsed (emails : list string) : list (string * string) :=
  omap parse_email emails.

(** The domains and the local parts read by the first loop of
    [detect_email_pattern]. *)
Definition domains_of (emails : list string) : gset string :=
  list_to_set (parsed emails).*2.

Definition usernames_of (emails : list string) : list string :=
  (parsed emails).*1.

(** Section 3: the enumerated patterns; [None] of the specification is
    the [None] of Python. *)
Inductive EmailPattern : Type :=
| FirstDotLast
| FirstUnderscoreLast
| Initials
| FirstInitialLast
| Unknown.

#[global] Instance EmailPattern_eq_dec : EqDecision EmailPattern.
Proof. solve_decision. Defined.

(** The string the code uses for each pattern. *)
Definition pattern_name (p : EmailPattern) : string :=
  match p with
  | FirstDotLast => "first.last"
  | FirstUnderscoreLast => "first_last"
  | Initials => "initials"
  | FirstInitialLast => "firstinitiallast"
  | Unknown => "unknown"
  end.

(** Section 4.4: the classification of a local part, in priority order. *)
Definition category (local_part : string) : EmailPattern :=
  if Str.has_char "." local_part then FirstDotLast
  else if Str.has_char "_" local_part then FirstUnderscoreLast
  else if String.length local_part <=? 2 then Initials
  else if Re.matches EmailExtractor.initial_last_pattern local_part then FirstInitialLast
  else Unknown.

(** Section 4.5, step 1: the template of a concrete pattern. *)
Definition template (p : EmailPattern) (first_name last_name domain : string)
    : option string :=
  match p with
  | FirstDotLast => Some (first_name ++ "." ++ last_name ++ "@" ++ domain)
  | FirstUnderscoreLast => Some (first_name ++ "_" ++ last_name ++ "@" ++ domain)
  | Initials => Some (Str.initial first_name ++ Str.initial last_name ++ "@" ++ domain)
  | FirstInitialLast => Some (Str.initial first_name ++ last_name ++ "@" ++ domain)
  | Unknown => None
  end.

(** Section 4.5, step 2: the first candidate. *)
Definition fallback (first_name last_name domain : string) : string :=
  first_name ++ "." ++ last_name ++ "@" ++ domain.

(** The values given to the fields of a format string. *)
Definition name_env (first_name last_name domain : string)
    (f : EmailExtractor.field) : string :=
  match f with
  | EmailExtractor.First => first_name
  | EmailExtractor.Last => last_name
  | EmailExtractor.First_initial => Str.initial first_name
  | EmailExtractor.Last_initial => Str.initial last_name
  | EmailExtractor.Domain => domain
  end.

(** The lower-cased whitespace tokens of a full name. *)
Definition name_tokens (name : string) : list string :=
  Str.split_ws (Str.lower name).

(** The host the synthesizer reads from a website URL. *)
Definition website_domain (website : string) : option string :=
  Re.search_group EmailExtractor.website_prefix EmailExtractor.website_host website.

(** The list has two addresses with different domains. *)
Definition mixed_domains (emails : list string) : Prop :=
  ∃ e1 e2 u1 d1 u2 d2,
    e1 ∈ emails ∧ e2 ∈ emails
    ∧ parse_email e1 = Some (u1, d1) ∧ parse_email e2 = Some (u2, d2)
    ∧ d1 ≠ d2.

(** How many of [ps] are [c]. *)
Definition votes {A : Type} `{EqDecision A} (c : A) (ps : list A) : nat :=
  length (filter (fun p => p = c) ps).

(** [c] occurs in [ps] before the first [c']. *)
Definition before {A : Type} (c c' : A) (ps : list A) : Prop :=
  ∃ pre post, ps = (pre ++ c :: post)%list ∧ c' ∉ pre.

(** Majority vote, first seen wins: no category has more votes than [c],
    and every other category with as many was first seen after [c]. *)
Definition wins {A : Type} `{EqDecision A} (c : A) (ps : list A) : Prop :=
  c ∈ ps
  ∧ (∀ c', votes c' ps ≤ votes c ps)
  ∧ (∀ c', c' ≠ c → votes c' ps = votes c ps → before c c' ps).

(** What the counting loop of [detect_email_pattern] has built after
    reading [ps]: each key with its number of votes, the keys in the order
    in which they were first seen. *)
Record counted (ps : list string) (d : list (string * nat)) : Prop := {
  counted_votes : ∀ k v, (k, v) ∈ d → v = votes k ps;
  counted_keys : ∀ k, k ∈ ps ↔ k ∈ d.*1;
  counted_nodup : NoDup d.*1;
  counted_order : ∀ i j k k', i < j → d.*1 !! i = Some k → d.*1 !! j = Some k' →
                  before k k' ps
}.

(** The digits of a raw phone number, in order. *)
Definition digits (raw : string) : string := Str.filter Str.is_digit raw.

(** Section 4.2: the two display forms. *)
Definition ten_digit_form (a b c d e f g h i j : ascii) : string :=
  string_of_list_ascii
    ["("; a; b; c; ")"; " "; d; e; f; "-"; g; h; i; j]%char.

Definition eleven_digit_form (k a b c d e f g h i j : ascii) : string :=
  string_of_list_ascii
    ["+"; k; " "; "("; a; b; c; ")"; " "; d; e; f; "-"; g; h; i; j]%char.

(** The handle of a platform on the first page, in order, that reports
    one. *)
Fixpoint first_reported (platform : string) (pages : list (gmap string string))
    : option string :=
  match pages with
  | [] => None
  | page :: later =>
      match page !! platform with
      | Some handle => Some handle
      | None => first_reported platform later
      end
  end.

(** A page's report as a triple of plain values. *)
Definition page_emails_of (info : WebsiteAnalyzer.page_info) : list string :=
  default [] (WebsiteAnalyzer.page_emails info).

Definition page_phones_of (info : WebsiteAnalyzer.page_info) : list string :=
  default [] (WebsiteAnalyzer.page_phone_numbers info).

Definition page_social_of (info : WebsiteAnalyzer.page_info) : gmap string string :=
  default ∅ (WebsiteAnalyzer.page_social_media info).

(** What the main page reports. *)
Definition main_page_info (text : string) : WebsiteAnalyzer.page_info :=
  {| WebsiteAnalyzer.page_emails := Some (WebsiteAnalyzer._extract_emails text);
     WebsiteAnalyzer.page_phone_numbers := Some (WebsiteAnalyzer._extract_phone_numbers text);
     WebsiteAnalyzer.page_social_media := Some (WebsiteAnalyzer._extract_social_media text) |}.

(** The dict after the reports [infos] have been added one after the
    other. *)
Definition add_pages (infos : list WebsiteAnalyzer.page_info)
    (ci : WebsiteAnalyzer.contact_info) : WebsiteAnalyzer.contact_info :=
  foldl (fun ci info => WebsiteAnalyzer.add_contact_page info ci) ci infos.

(** The dict before duplicates are removed, when the main page was
    fetched and the helper reported [infos] for the contact pages. *)
Definition gathered (text : string) (infos : list WebsiteAnalyzer.page_info)
    : WebsiteAnalyzer.contact_info :=
  add_pages infos
    (WebsiteAnalyzer.add_main_page text
       {| WebsiteAnalyzer.emails := []; WebsiteAnalyzer.phone_numbers := [];
          WebsiteAnalyzer.social_media := ∅ |}).

(** What the contact-page helper of the specification reports for a
    link. *)
Definition page_report (requests_get : string → result (Z * string)) (link : string)
    : WebsiteAnalyzer.page_info :=
  match WebsiteAnalyzer._make_request requests_get link with
  | None => WebsiteAnalyzer.no_page_info
  | Some text => main_page_info text
  end.

(** The pages an analysis reads, in order: the main page, then the first
    three contact pages; none when the main page cannot be fetched. *)
Definition pages_seen (requests_get : string → result (Z * string))
    (links : string → list string) (report : string → WebsiteAnalyzer.page_info)
    (url : string) : list WebsiteAnalyzer.page_info :=
  match WebsiteAnalyzer._make_request requests_get url with
  | None => []
  | Some text => main_page_info text :: (report <$> take 3 (links text))
  end.

(** An address that [_extract_emails] keeps: the at sign is not followed
    at once by example, domain or email, and .jpg, .png or .gif does not
    stand right before an at sign. *)
Definition kept_address (email : string) : Prop :=
  (∀ local_part word rest, word ∈ ["example"; "domain"; "email"] →
     email ≠ local_part ++ "@" ++ word ++ rest)
  ∧ (∀ stem ext rest, ext ∈ [".jpg"; ".png"; ".gif"] →
       email ≠ stem ++ ext ++ "@" ++ rest).

(** [kept_in_place keep xs ys]: [ys] is [xs] with exactly the entries
    that are not to be kept removed; the others stay, in their order and
    as often as they stand in [xs]. *)
Inductive kept_in_place (keep : string → Prop) : list string → list string → Prop :=
| kept_nil : kept_in_place keep [] []
| kept_keep x xs ys :
    keep x → kept_in_place keep xs ys → kept_in_place keep (x :: xs) (x :: ys)
| kept_drop x xs ys :
    ¬ keep x → kept_in_place keep xs ys → kept_in_place keep (x :: xs) ys.

(** [occur_in_order ms text]: the strings of [ms] stand in [text] one
    after the other, in the order of the list and without overlap; before
    each of them there may be a gap. *)
Inductive occur_in_order : list string → string → Prop :=
| occur_nil text : occur_in_order [] text
| occur_cons gap m ms text :
    occur_in_order ms text → occur_in_order (m :: ms) (gap ++ m ++ text).

End Spec.

(** ** Two sites *)

Module Example.

(** A site that gives one phone number in two writings, on the main page
    and on the contact page; its about page is missing and its team page
    times out. *)
Definition acme_get (url : string) : result (Z * string) :=
  if String.eqb url "https://acme.com" then
    Ok (200%Z, "Mail sales@acme.com, call +44 5551234567. twitter.com/acme")
  else if String.eqb url "https://acme.com/contact" then
    Ok (200%Z, "sales@acme.com jobs@acme.com +44-555-123-4567 or 555.123.4567, (555) 123-4567 twitter.com/acme_hr facebook.com/acme")
  else if String.eqb url "https://acme.com/about" then
    Ok (404%Z, "Not found. webmaster@acme.com")
  else Raise (RequestException "timed out").

Definition acme_links (text : string) : list string :=
  ["https://acme.com/about"; "https://acme.com/contact";
   "https://acme.com/team"; "https://acme.com/support"].

Definition acme_find (url text : string) : result (list string) :=
  Ok (acme_links text).

(** A server behind a transforming proxy: every answer has status 203. *)
Definition proxy_get (url : string) : result (Z * string) :=
  Ok (203%Z, "Mail sales@acme.org").

Definition no_links (url text : string) : result (list string) := Ok [].

End Example.

(** ** What a pattern matches *)

Module Sem.

Import Re.

(** The strings a pattern can match, whatever the order in which the
    matcher tries them.  The anchor matches the empty string; where it may
    stand is checked by the matcher. *)
Fixpoint lang (r : regex) (m : string) : Prop :=
  match r with
  | Lit l => m = l
  | Cls p lo hi =>
      Str.all_chars p m = true ∧ lo ≤ String.length m
      ∧ match hi with Some h => String.length m ≤ h | None => True end
  | Seq r1 r2 => ∃ m1 m2, m = m1 ++ m2 ∧ lang r1 m1 ∧ lang r2 m2
  | Alt r1 r2 => lang r1 m ∨ lang r2 m
  | Opt r1 => m = EmptyString ∨ lang r1 m
  | Eos => m = EmptyString
  end.

(** [sub in s]: [s] is [pre ++ sub ++ suf]. *)
Definition substring_of (sub s : string) : Prop :=
  ∃ pre suf, s = pre ++ sub ++ suf.

End Sem.

(** ** Vocabulary of the further properties *)

Module Spec2.

(** Neither whitespace nor one of the letters A to Z. *)
Definition plain_char (c : ascii) : bool :=
  negb (Str.is_space c) && negb (Str.is_upper c).

(** The part of a synthesized address before the at sign, for each
    concrete pattern. *)
Definition local_part_of (p : Spec.EmailPattern) (first_name last_name : string)
    : string :=
  match p with
  | Spec.FirstDotLast => first_name ++ "." ++ last_name
  | Spec.FirstUnderscoreLast => first_name ++ "_" ++ last_name
  | Spec.Initials => Str.initial first_name ++ Str.initial last_name
  | Spec.FirstInitialLast => Str.initial first_name ++ last_name
  | Spec.Unknown => EmptyString
  end.

(** A name token made of the letters a to z only. *)
Definition lower_word (s : string) : Prop :=
  Str.all_chars Str.is_lower s = true ∧ s ≠ EmptyString.

(** What may follow the host in a URL: nothing, or a path. *)
Definition path_like (s : string) : Prop :=
  s = EmptyString ∨ ∃ rest, s = String "/" rest.

End Spec2.

(** ** [utils/email_utils.py]: the remaining method *)

Module EmailExtractorMore.

(** [emails[0] if emails else None], on the list of
    [extract_emails_from_text]. *)
Definition extract_email_from_text (text : string) : option string :=
  head (EmailExtractor.extract_emails_from_text text).

End EmailExtractorMore.

(** ** [scraper.py]: class [LinkedInLeadScraper] *)

Module LinkedInLeadScraper.

(** [s.replace(' ', new)] *)
Fixpoint replace_space (new : string) (s : string) : string :=
  match s with
  | EmptyString => EmptyString
  | String c s' =>
      if Ascii.eqb c " " then new ++ replace_space new s'
      else String c (replace_space new s')
  end.

(** The truth value of an optional string: [None] and the empty string
    are false. *)
Definition truthy (s : option string) : bool :=
  match s with
  | Some (String _ _) => true
  | _ => false
  end.

(** [search_url += f"&key={value.replace(' ', '%20')}"] under [if value:] *)
Definition add_filter (key : string) (value : option string) (search_url : string)
    : string :=
  if truthy value
  then search_url ++ "&" ++ key ++ "=" ++ replace_space "%20" (default EmptyString value)
  else search_url.

(** The search URL built at the top of [search_linkedin]; the three
    filters are [None] when left out. *)
Definition search_url (keywords : string) (location industry company_size : option string)
    : string :=
  add_filter "companySize" company_size
    (add_filter "industry" industry
       (add_filter "location" location
          ("https://www.linkedin.com/search/results/people/?keywords="
           ++ replace_space "%20" keywords))).

(** [xs[:stop]] for an integer [stop]: the first [stop] elements, all of
    them when the list is shorter; a negative [stop] counts from the end,
    so that the last [-stop] elements are left out, and nothing remains
    when the list has no more than that. *)
Definition slice_to {A : Type} (xs : list A) (stop : Z) : list A :=
  if (0 <=? stop)%Z then take (Z.to_nat stop) xs
  else take (length xs - Z.to_nat (- stop)) xs.

(** The last loop of [search_linkedin].  An element of the page is given
    by what [element.get_attribute("href")] does: it returns a string or
    [None], or raises. *)
Fixpoint collect_profile_urls (elements : list (result (option string)))
    : list string :=
  match elements with
  | [] => []
  | element :: rest =>
      match element with
      | Ok (Some href) =>
          if truthy (Some href) && Str.contains "/in/" href
          then match Str.split_on "?" href with
               | url :: _ => url :: collect_profile_urls rest
               | [] => collect_profile_urls rest
               end
          else collect_profile_urls rest
      | _ => collect_profile_urls rest
      end
  end.

(** [for element in profile_elements[:limit]], for any integer [limit]. *)
Definition profile_urls (profile_elements : list (result (option string))) (limit : Z)
    : list string :=
  collect_profile_urls (slice_to profile_elements limit).

(** The dict of a lead: the seven keys set by [extract_linkedin_profile]
    and the four keys [generate_leads] may add ([None] when the key is
    absent). *)
Record profile : Type := {
  name : string;
  title : string;
  company : string;
  location : string;
  linkedin_url : string;
  company_website : option string;
  email : option string;
  additional_emails : option (list string);
  phone_numbers : option (list string);
  social_media : option (gmap string string);
  email_confidence : option string
}.

(** [profile_data["email"] = value] *)
Definition set_email (value : option string) (pd : profile) : profile :=
  {| name := name pd; title := title pd; company := company pd;
     location := location pd; linkedin_url := linkedin_url pd;
     company_website := company_website pd;
     email := value;
     additional_emails := additional_emails pd; phone_numbers := phone_numbers pd;
     social_media := social_media pd; email_confidence := email_confidence pd |}.

(** The three assignments from [contact_info]. *)
Definition set_contact (es ps : list string) (sm : gmap string string)
    (pd : profile) : profile :=
  {| name := name pd; title := title pd; company := company pd;
     location := location pd; linkedin_url := linkedin_url pd;
     company_website := company_website pd;
     email := email pd;
     additional_emails := Some es; phone_numbers := Some ps;
     social_media := Some sm; email_confidence := email_confidence pd |}.

(** [profile_data["email_confidence"] = value] *)
Definition set_confidence (value : string) (pd : profile) : profile :=
  {| name := name pd; title := title pd; company := company pd;
     location := location pd; linkedin_url := linkedin_url pd;
     company_website := company_website pd;
     email := email pd;
     additional_emails := additional_emails pd; phone_numbers := phone_numbers pd;
     social_media := social_media pd; email_confidence := Some value |}.

(** [contact_info.get(key, [])] and [contact_info.get(key, {})]:
    [analyze_website] stores lists under emails and phone_numbers and a
    dict under social_media. *)
Definition get_list (contact_info : gmap string WebsiteAnalyzer.value) (key : string)
    : list string :=
  match contact_info !! key with
  | Some (WebsiteAnalyzer.VList l) => l
  | _ => []
  end.

Definition get_dict (contact_info : gmap string WebsiteAnalyzer.value) (key : string)
    : gmap string string :=
  match contact_info !! key with
  | Some (WebsiteAnalyzer.VDict d) => d
  | _ => ∅
  end.

Section Scraper.

(** The parameters of the website analyzer. *)
Variable requests_get : string → result (Z * string).
Variable find_contact_pages : string → string → result (list string).
Variable analyze_contact_page : string → result WebsiteAnalyzer.page_info.

(** The two methods that drive the browser: what they return, or the
    exception they raise. *)
Variable search_linkedin :
  string → option string → option string → option string → Z → result (list string).
Variable extract_linkedin_profile : string → result profile.

Definition extract_contact_info_from_website (website_url : option string)
    : gmap string WebsiteAnalyzer.value :=
  if negb (truthy website_url) then ∅
  else WebsiteAnalyzer.analyze_website requests_get find_contact_pages
         analyze_contact_page website_url.

(** The statements of the loop of [generate_leads] between the extraction
    of the profile and [leads.append]. *)
Definition merge_contact_info (profile_data : profile) : result profile :=
  if truthy (company_website profile_data) then
    let contact_info := extract_contact_info_from_website (company_website profile_data) in
    let site_emails := get_list contact_info "emails" in
    profile_data ←
      (if negb (length site_emails =? 0) && negb (truthy (email profile_data))
       then first_email ← py_index site_emails 0;
            Ok (set_email (Some first_email) profile_data)
       else Ok profile_data);
    let profile_data :=
      set_contact site_emails (get_list contact_info "phone_numbers")
        (get_dict contact_info "social_media") profile_data in
    if negb (truthy (email profile_data))
       && negb (String.eqb (name profile_data) "Unknown")
    then
      generated_email ←
        EmailExtractor.generate_likely_email (name profile_data) (company profile_data)
          (default EmptyString (company_website profile_data)) (Some site_emails);
      if truthy generated_email
      then Ok (set_confidence "Generated" (set_email generated_email profile_data))
      else Ok profile_data
    else Ok profile_data
  else Ok profile_data.

(** The loop of [generate_leads]: an exception anywhere in the body
    skips the profile. *)
Fixpoint leads_loop (profile_urls : list string) : list profile :=
  match profile_urls with
  | [] => []
  | url :: rest =>
      match (profile_data ← extract_linkedin_profile url;
             merge_contact_info profile_data) with
      | Ok lead => lead :: leads_loop rest
      | Raise _ => leads_loop rest
      end
  end.

(** The search is outside the [try]: its exception leaves
    [generate_leads]. *)
Definition generate_leads (keywords : string)
    (location industry company_size : option string) (limit : Z)
    : result (list profile) :=
  profile_urls ← search_linkedin keywords location industry company_size limit;
  Ok (leads_loop profile_urls).

End Scraper.

(** The keys of a lead that [generate_leads] never assigns. *)
Definition same_person (pd pd' : profile) : Prop :=
  name pd' = name pd ∧ title pd' = title pd ∧ company pd' = company pd
  ∧ location pd' = location pd ∧ linkedin_url pd' = linkedin_url pd
  ∧ company_website pd' = company_website pd.

End LinkedInLeadScraper.

(** ** A profile and two helpers that raise *)

Module Example2.

Definition jane : LinkedInLeadScraper.profile :=
  {| LinkedInLeadScraper.name := "Jane Doe";
     LinkedInLeadScraper.title := "CTO";
     LinkedInLeadScraper.company := "Acme";
     LinkedInLeadScraper.location := "Berlin";
     LinkedInLeadScraper.linkedin_url := "https://www.linkedin.com/in/jane-doe";
     LinkedInLeadScraper.company_website := Some "https://acme.com";
     LinkedInLeadScraper.email := Some "jane@mail.org";
     LinkedInLeadScraper.additional_emails := None;
     LinkedInLeadScraper.phone_numbers := None;
     LinkedInLeadScraper.social_media := None;
     LinkedInLeadScraper.email_confidence := None |}.

(** The same person without an e-mail on the profile, at a company whose
    site cannot be fetched. *)
Definition john : LinkedInLeadScraper.profile :=
  {| LinkedInLeadScraper.name := "John Ronald Smith";
     LinkedInLeadScraper.title := "CEO";
     LinkedInLeadScraper.company := "Initech";
     LinkedInLeadScraper.location := "Austin";
     LinkedInLeadScraper.linkedin_url := "https://www.linkedin.com/in/john-smith";
     LinkedInLeadScraper.company_website := Some "https://www.initech.com/home";
     LinkedInLeadScraper.email := None;
     LinkedInLeadScraper.additional_emails := None;
     LinkedInLeadScraper.phone_numbers := None;
     LinkedInLeadScraper.social_media := None;
     LinkedInLeadScraper.email_confidence := None |}.

(** The browser: the first profile page loads, the second raises, the
    third loads. *)
Definition browser (url : string) : result LinkedInLeadScraper.profile :=
  if String.eqb url "https://www.linkedin.com/in/jane-doe" then Ok jane
  else if String.eqb url "https://www.linkedin.com/in/john-smith" then Ok john
  else Raise (OtherError "no such window").


Definition broken_find (url text : string) : result (list string) :=
  Raise (OtherError "parser").

End Example2.

(** * Properties *)

(** ** Strings *)

Section Strings.

Lemma append_empty_r (s : string) : s ++ EmptyString = s.
Proof.
  induction s as [|c s IH]; [done |].
  change (String c (s ++ EmptyString) = String c s). by rewrite IH.
Qed.

Lemma append_cons c (s t : string) : String c s ++ t = String c (s ++ t).
Proof. reflexivity. Qed.

Lemma append_assoc (s t u : string) : (s ++ t) ++ u = s ++ t ++ u.
Proof.
  induction s as [|c s IH]; [done |]. rewrite !append_cons. by rewrite IH.
Qed.

Lemma strip_prefix_app (p suf : string) : Str.strip_prefix p (p ++ suf) = Some suf.
Proof.
  induction p as [|c p IH]; [by destruct suf |].
  rewrite append_cons. simpl. by rewrite Ascii.eqb_refl.
Qed.

Lemma strip_prefix_Some (p s rest : string) :
  Str.strip_prefix p s = Some rest → s = p ++ rest.
Proof.
  revert s. induction p as [|c p IH]; intros s; simpl.
  - by intros [= <-].
  - destruct s as [|c' s]; [done |].
    destruct (Ascii.eqb_spec c c') as [->|]; [| done].
    intros H. rewrite append_cons. f_equal. by apply IH.
Qed.

Lemma contains_unfold (needle hay : string) :
  Str.contains needle hay =
    match Str.strip_prefix needle hay with
    | Some _ => true
    | None => match hay with
              | EmptyString => false
              | String _ hay' => Str.contains needle hay'
              end
    end.
Proof. by destruct hay. Qed.

(** [needle in hay] is the substring relation. *)
Lemma contains_spec (needle hay : string) :
  Str.contains needle hay = true ↔ ∃ pre suf, hay = pre ++ needle ++ suf.
Proof.
  split.
  - induction hay as [|c hay IH]; rewrite contains_unfold.
    + destruct (Str.strip_prefix needle EmptyString) as [rest|] eqn:H; [| done].
      intros _. exists EmptyString, rest. exact (strip_prefix_Some _ _ _ H).
    + destruct (Str.strip_prefix needle (String c hay)) as [rest|] eqn:H.
      * intros _. exists EmptyString, rest. exact (strip_prefix_Some _ _ _ H).
      * intros (pre & suf & ->)%IH. by exists (String c pre), suf.
  - intros (pre & suf & ->). induction pre as [|c pre IH]; rewrite contains_unfold.
    + change (EmptyString ++ needle ++ suf) with (needle ++ suf).
      by rewrite strip_prefix_app.
    + rewrite append_cons. by destruct (Str.strip_prefix _ _).
Qed.

Lemma str_filter_app p (s t : string) : Str.filter p (s ++ t) = Str.filter p s ++ Str.filter p t.
Proof.
  induction s as [|c s IH]; [done |]. rewrite append_cons. simpl.
  destruct (p c); [rewrite append_cons |]; by rewrite IH.
Qed.

Lemma str_filter_all_chars p s : Str.all_chars p (Str.filter p s) = true.
Proof.
  induction s as [|c s IH]; [done |]. simpl.
  destruct (p c) eqn:Hc; [simpl; by rewrite Hc |done].
Qed.

Lemma str_filter_id p s : Str.all_chars p s = true → Str.filter p s = s.
Proof.
  induction s as [|c s IH]; [done |]. simpl.
  intros [-> Hs]%andb_true_iff. by rewrite IH.
Qed.

End Strings.

(** ** Splitting at a separator *)

Section Split.

Import Spec.

Lemma split_on_no_sep sep s :
  Str.has_char sep s = false → Str.split_on sep s = [s].
Proof.
  induction s as [|c s IH]; [done |]. simpl.
  intros [Hc Hs]%orb_false_iff. rewrite Ascii.eqb_sym, Hc. by rewrite IH.
Qed.

Lemma split_on_join sep u t :
  Str.has_char sep u = false →
  Str.split_on sep (u ++ String sep t) = u :: Str.split_on sep t.
Proof.
  induction u as [|c u IH].
  - intros _. change (EmptyString ++ String sep t) with (String sep t).
    simpl. by rewrite Ascii.eqb_refl.
  - intros [Hc Hu]%orb_false_iff. rewrite append_cons.
    cbn [Str.split_on]. rewrite Ascii.eqb_sym, Hc. by rewrite IH.
Qed.

(** An address made of a local part, one at sign and a domain is read
    back as that local part and that domain. *)
Lemma parse_email_join u d :
  Str.has_char "@" u = false → Str.has_char "@" d = false →
  parse_email (u ++ "@" ++ d) = Some (u, d).
Proof.
  intros Hu Hd. unfold parse_email.
  change (u ++ "@" ++ d) with (u ++ String "@" d).
  by rewrite split_on_join, split_on_no_sep.
Qed.

Lemma split_on_cons sep s : ∃ p ps, Str.split_on sep s = p :: ps.
Proof.
  induction s as [|c s (p & ps & IH)]; simpl; [eauto |].
  destruct (Ascii.eqb c sep); [eauto |]. rewrite IH. eauto.
Qed.

Lemma split_on_single sep s p :
  Str.split_on sep s = [p] → s = p ∧ Str.has_char sep s = false.
Proof.
  revert p. induction s as [|c s IH]; intros p; cbn [Str.split_on].
  - by intros [= <-].
  - destruct (Ascii.eqb_spec c sep) as [->|Hne].
    + destruct (split_on_cons sep s) as (q & qs & ->). done.
    + destruct (Str.split_on sep s) as [|q [|? ?]] eqn:Hs; [| | done].
      * destruct (split_on_cons sep s) as (? & ? & ?). congruence.
      * intros [= <-]. destruct (IH q eq_refl) as [-> Hq]. split; [done |].
        cbn [Str.has_char]. rewrite Hq, orb_false_r. apply Ascii.eqb_neq. congruence.
Qed.

Lemma split_on_pair sep s u d :
  Str.split_on sep s = [u; d] →
  s = u ++ String sep d ∧ Str.has_char sep u = false ∧ Str.has_char sep d = false.
Proof.
  revert u. induction s as [|c s IH]; intros u; [done |]. cbn [Str.split_on].
  destruct (Ascii.eqb_spec c sep) as [->|Hne].
  - intros [= <- Hs]. destruct (split_on_single _ _ _ Hs) as [-> Hd]. done.
  - destruct (Str.split_on sep s) as [|q qs] eqn:Hs; [done |].
    intros [= <- ->]. destruct (IH q eq_refl) as (-> & Hq & Hd).
    split; [done |]. split; [| done]. cbn [Str.has_char]. rewrite Hq, orb_false_r.
    apply Ascii.eqb_neq. congruence.
Qed.

(** The converse: what is read as a local part and a domain is the two
    joined by the only at sign. *)
Lemma parse_email_Some email u d :
  parse_email email = Some (u, d) →
  email = u ++ "@" ++ d ∧ Str.has_char "@" u = false ∧ Str.has_char "@" d = false.
Proof.
  unfold parse_email.
  destruct (Str.split_on "@" email) as [|u' [|d' [|? ?]]] eqn:Hs; try done.
  intros [= <- <-]. by apply split_on_pair.
Qed.

End Split.

(** ** The matcher on the pattern of initial and last name *)

Section InitialLast.

Import Re.

Lemma str_take_drop n (s : string) : Str.take n s ++ Str.drop n s = s.
Proof.
  revert s. induction n as [|n IH]; intros [|c s]; try done.
  simpl. rewrite append_cons. by rewrite IH.
Qed.

Lemma str_length_take_le n (s : string) : n ≤ String.length s → String.length (Str.take n s) = n.
Proof.
  revert s. induction n as [|n IH]; intros [|c s]; simpl; try done; try lia.
  intros H. rewrite IH; [done | lia].
Qed.

Lemma run_length_le p s : run_length p None s ≤ String.length s.
Proof. induction s as [|c s IH]; simpl; [done |]. destruct (p c); lia. Qed.

Lemma run_length_take p s : Str.all_chars p (Str.take (run_length p None s) s) = true.
Proof.
  induction s as [|c s IH]; simpl; [done |].
  destruct (p c) eqn:Hc; simpl; [by rewrite Hc |done].
Qed.

(** Inside the run every position starts with a character of the class. *)
Lemma run_length_inside p s j :
  j < run_length p None s → ∃ c r, Str.drop j s = String c r ∧ p c = true.
Proof.
  revert j. induction s as [|c s IH]; intros j; simpl; [lia |].
  destruct (p c) eqn:Hc; [| lia]. destruct j as [|j]; simpl.
  - eauto.
  - intros H. apply IH. lia.
Qed.

Lemma run_length_all p s t :
  Str.all_chars p s = true →
  (∀ c r, t = String c r → p c = false) →
  run_length p None (s ++ t) = String.length s.
Proof.
  intros Hs Ht. induction s as [|c s IH].
  - change (EmptyString ++ t) with t. destruct t as [|c r]; [done |].
    simpl. by rewrite (Ht c r).
  - simpl in Hs. apply andb_true_iff in Hs as [Hc Hs].
    rewrite append_cons. simpl. by rewrite Hc, IH.
Qed.

Lemma str_drop_app_length (s t : string) : Str.drop (String.length s) (s ++ t) = t.
Proof.
  induction s as [|c s IH]; [by destruct t |]. rewrite append_cons. simpl. apply IH.
Qed.

Lemma give_back_Some {B : Type} s lo extra (k : string → option B) b :
  give_back s lo extra k = Some b →
  ∃ j, lo ≤ j ≤ lo + extra ∧ k (Str.drop j s) = Some b.
Proof.
  induction extra as [|e IH]; simpl.
  - destruct (k (Str.drop (lo + 0) s)) eqn:Hk; [| done].
    intros [= ->]. exists (lo + 0). split; [lia | done].
  - destruct (k (Str.drop (lo + S e) s)) eqn:Hk.
    + intros [= ->]. exists (lo + S e). split; [lia | done].
    + intros (j & Hj & Hkj)%IH. exists j. split; [lia | done].
Qed.

Lemma give_back_first {B : Type} s lo extra (k : string → option B) b :
  k (Str.drop (lo + extra) s) = Some b → give_back s lo extra k = Some b.
Proof. intros H. destruct extra; simpl; by rewrite H. Qed.

Lemma at_end_spec s :
  at_end s = true ↔ s = EmptyString ∨ s = String (ascii_of_nat 10) EmptyString.
Proof.
  destruct s as [|c [|c' s]]; simpl.
  - split; [by left | done].
  - rewrite Nat.eqb_eq. unfold Str.code. split.
    + intros H. right. by rewrite <- H, ascii_nat_embedding.
    + intros [?|[= ->]]; done.
  - split; [done | intros [?|?]; done].
Qed.

Lemma is_lower_not_newline c : Str.is_lower c = true → Str.code c ≠ 10.
Proof.
  unfold Str.is_lower, Str.between. intros [H _]%andb_true_iff.
  apply Nat.leb_le in H. lia.
Qed.

(** [re.match(r'^[a-z][a-z]{2,}$', u)] holds exactly when [u] is three or
    more lower-case letters, possibly followed by one final newline (the
    dollar sign of Python matches before it). *)
Lemma match_initial_last {B : Type} c u (k : string → option B) :
  bt EmailExtractor.initial_last_pattern (String c u) k
  = if Str.is_lower c then
      if run_length Str.is_lower None u <? 2 then None
      else give_back u 2 (run_length Str.is_lower None u - 2)
             (fun rest => if at_end rest then k rest else None)
    else None.
Proof.
  unfold EmailExtractor.initial_last_pattern. cbn [bt run_length].
  destruct (Str.is_lower c); [| done].
  assert (run_length Str.is_lower (pred <$> Some 1) u = 0) as -> by by destruct u.
  cbn [Nat.ltb Nat.leb Nat.sub give_back Nat.add Str.drop].
  by destruct (if _ <=? 1 then _ else _).
Qed.

Lemma initial_last_pattern_spec u :
  matches EmailExtractor.initial_last_pattern u = true ↔
  ∃ w, Str.all_chars Str.is_lower w = true ∧ 3 ≤ String.length w
       ∧ (u = w ∨ u = w ++ String (ascii_of_nat 10) EmptyString).
Proof.
  unfold matches, match_here. split.
  - destruct u as [|c u]; [done |]. rewrite match_initial_last.
    destruct (Str.is_lower c) eqn:Hc; [| done].
    destruct (Nat.ltb_spec (run_length Str.is_lower None u) 2) as [|Hn]; [done |].
    destruct (give_back u 2 _ _) as [b|] eqn:Hbt; [| done].
    intros _. apply give_back_Some in Hbt as (j & Hj & Hk).
    destruct (at_end (Str.drop j u)) eqn:Hend; [| done]. clear Hk.
    assert (j = run_length Str.is_lower None u) as ->.
    { destruct (decide (j < run_length Str.is_lower None u)) as [Hlt|]; [| lia].
      exfalso. destruct (run_length_inside _ _ _ Hlt) as (c' & r & Hd & Hc').
      rewrite Hd in Hend. destruct r; [| done]. simpl in Hend.
      apply Nat.eqb_eq in Hend. by apply is_lower_not_newline in Hc'. }
    exists (String c (Str.take (run_length Str.is_lower None u) u)).
    split; [simpl; by rewrite Hc, run_length_take |].
    split; [simpl; rewrite str_length_take_le; [lia | apply run_length_le] |].
    pose proof (str_take_drop (run_length Str.is_lower None u) u) as Htd.
    apply at_end_spec in Hend as [Hend|Hend]; rewrite Hend in Htd.
    + left. f_equal. by rewrite append_empty_r in Htd.
    + right. rewrite append_cons. by f_equal.
  - intros (w & Hw & Hlen & Hu).
    assert (∃ t, u = w ++ t ∧ at_end t = true
                 ∧ ∀ c r, t = String c r → Str.is_lower c = false) as (t & -> & Hend & Ht).
    { destruct Hu as [-> | ->].
      - exists EmptyString. by rewrite append_empty_r.
      - eexists. split; [done |]. split; [done |]. by intros c r [= <- <-]. }
    destruct w as [|c w]; [simpl in Hlen; lia |].
    simpl in Hw. apply andb_true_iff in Hw as [Hc Hw]. simpl in Hlen.
    rewrite append_cons, match_initial_last, Hc, (run_length_all _ _ _ Hw Ht).
    destruct (Nat.ltb_spec (String.length w) 2) as [|_]; [lia |].
    erewrite give_back_first; [done |].
    replace (2 + (String.length w - 2)) with (String.length w) by lia.
    by rewrite str_drop_app_length, Hend.
Qed.

End InitialLast.
(** ** The counting dictionary and [max] *)

Section Counting.

Import EmailExtractor Spec.

Implicit Types (d : list (string * nat)) (ps : list string) (k c : string).

Lemma dict_get_None k d : dict_get k d = None ↔ k ∉ d.*1.
Proof.
  induction d as [|[k' v] d IH]; simpl.
  - split; [intros _; apply not_elem_of_nil | done].
  - destruct (String.eqb_spec k k') as [->|Hne].
    + split; [intros [=] | intros H; exfalso; apply H; left].
    + rewrite IH, not_elem_of_cons. tauto.
Qed.

Lemma dict_get_Some k v d : dict_get k d = Some v → (k, v) ∈ d.
Proof.
  induction d as [|[k' v'] d IH]; simpl; [done |].
  destruct (String.eqb_spec k k') as [->|Hne].
  - intros [= ->]. left.
  - intros H. right. auto.
Qed.

Lemma dict_set_fresh k v d : k ∉ d.*1 → dict_set k v d = (d ++ [(k, v)])%list.
Proof.
  induction d as [|[k' v'] d IH]; simpl; [done |].
  rewrite not_elem_of_cons. intros [Hne Hnin].
  destruct (String.eqb_spec k k'); [done |]. by rewrite IH.
Qed.

Lemma dict_set_keys k v d : k ∈ d.*1 → (dict_set k v d).*1 = d.*1.
Proof.
  induction d as [|[k' v'] d IH]; simpl.
  - intros H. by apply elem_of_nil in H.
  - destruct (String.eqb_spec k k') as [->|Hne]; [done |].
    rewrite elem_of_cons. intros [?|Hin]; [done |]. csimpl. by rewrite IH.
Qed.

Lemma dict_set_elem k v d k' v' :
  NoDup d.*1 → (k', v') ∈ dict_set k v d →
  (k' = k ∧ v' = v) ∨ (k' ≠ k ∧ (k', v') ∈ d).
Proof.
  induction d as [|[k0 v0] d IH]; simpl.
  - intros _ H. apply list_elem_of_singleton in H. left. by inversion H.
  - rewrite NoDup_cons. intros [Hnin Hnd].
    destruct (String.eqb_spec k k0) as [->|Hne].
    + rewrite elem_of_cons. intros [[= -> ->]|Hin]; [by left |].
      right. split; [| by right].
      intros ->. apply Hnin. change k0 with ((k0, v').1). by apply list_elem_of_fmap_2.
    + rewrite elem_of_cons. intros [[= -> ->]|Hin].
      * right. split; [done | left].
      * destruct (IH Hnd Hin) as [?|[? ?]]; [by left |]. right. split; [done | by right].
Qed.

Lemma votes_snoc c ps p :
  votes c (ps ++ [p]) = votes c ps + (if decide (p = c) then 1 else 0).
Proof.
  unfold votes. rewrite filter_app, length_app. f_equal.
  rewrite filter_cons, filter_nil. by destruct (decide (p = c)).
Qed.

Lemma votes_pos c ps : c ∈ ps ↔ 0 < votes c ps.
Proof.
  unfold votes. induction ps as [|p ps IH].
  - rewrite filter_nil. simpl. split; [intros H; by apply elem_of_nil in H | lia].
  - rewrite filter_cons, elem_of_cons. destruct (decide (p = c)) as [->|Hne]; simpl.
    + split; [lia | by left].
    + rewrite IH. split; [intros [?|?]; [congruence | done] | by right].
Qed.

Lemma before_snoc c c' ps p : before c c' ps → before c c' (ps ++ [p]).
Proof.
  intros (pre & post & -> & Hnin). exists pre, (post ++ [p])%list.
  split; [by rewrite <- app_assoc | done].
Qed.

Lemma counted_nil : counted [] [].
Proof.
  split; simpl.
  - intros k v H. by apply elem_of_nil in H.
  - done.
  - constructor.
  - intros i j k k' _ H. by rewrite lookup_nil in H.
Qed.

Lemma counted_step ps d p :
  counted ps d → counted (ps ++ [p]) (count_pattern d p).
Proof.
  intros [Hv Hk Hnd Ho]. unfold count_pattern.
  destruct (decide (p ∈ d.*1)) as [Hin|Hnin].
  - (* the key is there: its count goes up by one, in place *)
    destruct (dict_get p d) as [n|] eqn:Hget;
      [| apply dict_get_None in Hget; done].
    simpl. pose proof (Hv _ _ (dict_get_Some _ _ _ Hget)) as Hn.
    split.
    + intros k v H. apply dict_set_elem in H; [| done].
      rewrite votes_snoc. destruct H as [[-> ->]|[Hne H]].
      * rewrite decide_True by done. lia.
      * rewrite decide_False by done. rewrite (Hv _ _ H). lia.
    + intros k. rewrite dict_set_keys by done. rewrite elem_of_app, list_elem_of_singleton.
      rewrite Hk. split; [intros [? | ->]; done | by left].
    + by rewrite dict_set_keys.
    + rewrite dict_set_keys by done. intros i j k k' Hlt Hi Hj.
      apply before_snoc. eauto.
  - (* a new key: appended with count 1 *)
    assert (dict_get p d = None) as -> by by apply dict_get_None.
    simpl. rewrite dict_set_fresh by done.
    assert (p ∉ ps) as Hps by (by rewrite Hk).
    split.
    + intros k v. rewrite elem_of_app, list_elem_of_singleton, votes_snoc.
      intros [H|[= -> ->]].
      * rewrite decide_False; [rewrite (Hv _ _ H); lia |].
        intros ->. apply Hnin. change k with ((k, v).1). by apply list_elem_of_fmap_2.
      * rewrite decide_True by done.
        destruct (votes_pos p ps) as [_ H]. destruct (votes p ps); [done |].
        exfalso. apply Hps, H. lia.
    + intros k. rewrite fmap_app, !elem_of_app, Hk. simpl. done.
    + rewrite fmap_app. simpl. apply NoDup_app. split; [done |].
      split; [| apply NoDup_singleton].
      intros k Hkin ->%list_elem_of_singleton. done.
    + rewrite fmap_app. simpl. intros i j k k' Hlt Hi Hj.
      destruct (decide (j < length d.*1)) as [Hj'|Hj'].
      * rewrite lookup_app_l in Hj by done. rewrite lookup_app_l in Hi by lia.
        apply before_snoc. eauto.
      * rewrite lookup_app_r in Hj by lia.
        destruct (j - length d.*1) as [|?] eqn:E; simpl in Hj; [| by rewrite lookup_nil in Hj].
        injection Hj as <-.
        assert (i < length d.*1) as Hi' by lia.
        rewrite lookup_app_l in Hi by done.
        assert (k ∈ ps) as Hkps by (apply Hk; by eapply list_elem_of_lookup_2).
        apply list_elem_of_split in Hkps as (pre & post & ->).
        exists pre, (post ++ [p])%list. split; [by rewrite <- app_assoc |].
        intros Hpre. apply Hps. apply elem_of_app. by left.
Qed.

Lemma counted_fold ps : counted ps (fold_left count_pattern ps []).
Proof.
  induction ps as [|p ps IH] using rev_ind.
  - apply counted_nil.
  - rewrite fold_left_app. simpl. by apply counted_step.
Qed.

(** [max] returns the first of the items with the greatest count. *)
Lemma max_from_first best items :
  ∃ l1 l2, (best :: items = l1 ++ max_from best items :: l2)%list
         ∧ (∀ x, x ∈ l1 → x.2 < (max_from best items).2)
         ∧ (∀ x, x ∈ l2 → x.2 ≤ (max_from best items).2).
Proof.
  revert best. induction items as [|item rest IH]; intros best; simpl.
  - exists [], []. split; [done |]. split; intros x H; by apply elem_of_nil in H.
  - destruct (IH (if best.2 <? item.2 then item else best)) as (l1 & l2 & Heq & Hlt & Hle).
    set (r := max_from (if best.2 <? item.2 then item else best) rest) in *.
    assert ((if best.2 <? item.2 then item else best).2 ≤ r.2) as Hbest.
    { destruct l1 as [|y l1]; simpl in Heq.
      - injection Heq as -> _. done.
      - injection Heq as -> _. apply Nat.lt_le_incl, Hlt. left. }
    destruct (Nat.ltb_spec best.2 item.2) as [Hbi|Hbi].
    + exists (best :: l1), l2. split; [by rewrite Heq |]. split; [| done].
      intros x [->|Hx]%elem_of_cons; [lia | by apply Hlt].
    + destruct l1 as [|y l1]; simpl in Heq.
      * injection Heq as Hr Hrest. exists [], (item :: l2).
        split; [simpl; by rewrite Hr, Hrest |]. split.
        -- intros x H. by apply elem_of_nil in H.
        -- intros x [->|Hx]%elem_of_cons; [rewrite <- Hr; lia | by apply Hle].
      * injection Heq as -> Hrest. exists (y :: item :: l1), l2.
        split; [simpl; by rewrite Hrest |]. split; [| done].
        intros x [->|[->|Hx]%elem_of_cons]%elem_of_cons.
        -- apply Hlt. left.
        -- assert (y.2 < r.2) by (apply Hlt; left). lia.
        -- apply Hlt. by right.
Qed.

End Counting.

(** ** [detect_email_pattern] *)

Section Detect.

Import EmailExtractor Spec.

Lemma collect_parse acc email :
  collect acc email =
    match parse_email email with
    | Some (username, domain) => ({[domain]} ∪ acc.1, (acc.2 ++ [username])%list)
    | None => acc
    end.
Proof.
  unfold collect, parse_email.
  destruct (Str.split_on "@" email) as [|u [|d [|? ?]]]; done.
Qed.

Lemma collect_fold emails D U :
  fold_left collect emails (D, U) =
    (list_to_set (parsed emails).*2 ∪ D, (U ++ (parsed emails).*1)%list).
Proof.
  revert D U. induction emails as [|e emails IH]; intros D U; simpl.
  - f_equal; [set_solver | by rewrite app_nil_r].
  - rewrite collect_parse. unfold parsed. simpl.
    destruct (parse_email e) as [[u d]|]; simpl.
    + rewrite IH. f_equal; [set_solver | by rewrite <- app_assoc].
    + apply IH.
Qed.

Lemma max_wins ps item rest :
  fold_left count_pattern ps [] = item :: rest →
  wins (max_from item rest).1 ps.
Proof.
  intros Hd. pose proof (counted_fold ps) as [Hv Hk Hnd Ho]. rewrite Hd in *.
  destruct (max_from_first item rest) as (l1 & l2 & Heq & Hlt & Hle).
  destruct (max_from item rest) as [c v] eqn:Hr. simpl in Hlt, Hle |- *.
  assert ((c, v) ∈ item :: rest) as Hin.
  { rewrite Heq. apply elem_of_app. right. left. }
  assert (v = votes c ps) as Hvc by by apply Hv.
  assert (c ∈ ps) as Hc.
  { apply Hk. change c with ((c, v).1). by apply list_elem_of_fmap_2. }
  assert (∀ c', c' ∈ ps → ∃ v', v' = votes c' ps ∧
            ((c', v') ∈ l1 ∨ (c', v') = (c, v) ∨ (c', v') ∈ l2)) as Hsplit.
  { intros c' Hc'. apply Hk in Hc'. apply list_elem_of_fmap in Hc' as ([c0 v'] & -> & Hc').
    exists v'. split; [by apply Hv |]. simpl. rewrite Heq in Hc'.
    apply elem_of_app in Hc' as [?|[?|?]%elem_of_cons]; auto. }
  split; [done |]. split.
  - intros c'. destruct (decide (c' ∈ ps)) as [Hc'|Hc'].
    + destruct (Hsplit c' Hc') as (v' & -> & [H|[H|H]]).
      * apply Hlt in H. simpl in H. lia.
      * injection H as -> _. done.
      * apply Hle in H. simpl in H. lia.
    + destruct (votes_pos c' ps) as [_ H]. destruct (votes c' ps); [lia |].
      exfalso. apply Hc', H. lia.
  - intros c' Hne Htie.
    assert (c' ∈ ps) as Hc'.
    { apply votes_pos. rewrite Htie. by apply votes_pos. }
    destruct (Hsplit c' Hc') as (v' & Hv' & [H|[H|H]]).
    + apply Hlt in H. simpl in H. lia.
    + by injection H as -> _.
    + apply list_elem_of_lookup in H as [j Hj].
      apply (Ho (length l1) (length l1 + S j)); [lia | |]; rewrite Heq, fmap_app.
      * rewrite lookup_app_r by (rewrite length_fmap; lia).
        rewrite length_fmap, Nat.sub_diag. done.
      * rewrite lookup_app_r by (rewrite length_fmap; lia).
        rewrite length_fmap. replace (length l1 + S j - length l1) with (S j) by lia.
        simpl. rewrite list_lookup_fmap, Hj. done.
Qed.

(** The two outcomes of the detector. *)
Lemma detect_cases emails :
  (detect_email_pattern emails = Ok None
   ∧ (length emails < 2 ∨ size (domains_of emails) ≠ 1))
  ∨ (∃ c, detect_email_pattern emails = Ok (Some c)
        ∧ 2 ≤ length emails ∧ size (domains_of emails) = 1
        ∧ wins c (classify <$> usernames_of emails)).
Proof.
  unfold detect_email_pattern.
  destruct (Nat.ltb_spec (length emails) 2) as [Hlen|Hlen]; [left; auto |].
  rewrite collect_fold. rewrite (right_id_L ∅ (∪)). simpl.
  fold (domains_of emails) (usernames_of emails).
  destruct (Nat.eqb_spec (size (domains_of emails)) 1) as [Hsz|Hsz]; simpl; [| left; auto].
  right.
  assert (∃ x, elements (domains_of emails) = [x]) as [x ->].
  { unfold size, set_size in Hsz. simpl in Hsz.
    destruct (elements (domains_of emails)) as [|x [|? ?]]; simplify_eq/=. eauto. }
  assert (usernames_of emails ≠ []) as Hne.
  { intros Hnil. unfold usernames_of in Hnil. apply fmap_nil_inv in Hnil.
    unfold domains_of in Hsz. rewrite Hnil in Hsz.
    change (size (∅ : gset string) = 1) in Hsz. by rewrite size_empty in Hsz. }
  unfold py_index. simpl.
  destruct (fold_left count_pattern (map classify (usernames_of emails)) []) as [|item rest] eqn:Hd.
  - exfalso. pose proof (counted_fold (map classify (usernames_of emails))) as [_ Hk _ _].
    rewrite Hd in Hk. destruct (usernames_of emails) as [|u us]; [done |].
    specialize (Hk (classify u)). simpl in Hk. destruct Hk as [Hk _].
    eapply elem_of_nil, Hk. left.
  - simpl. eexists. split; [done |]. split; [done |]. split; [done |].
    by apply max_wins.
Qed.

End Detect.

Section DetectShape.

Import EmailExtractor Spec.

Lemma classify_category u : classify u = pattern_name (category u).
Proof.
  unfold classify, category.
  repeat match goal with |- context [if ?b then _ else _] => destruct b end; done.
Qed.

Lemma pattern_name_inj : Inj (=) (=) pattern_name.
Proof. intros [] [] H; (done || discriminate H). Qed.

Lemma votes_fmap {A B : Type} `{EqDecision A, EqDecision B} (f : A → B) c (ps : list A) :
  Inj (=) (=) f → votes (f c) (f <$> ps) = votes c ps.
Proof.
  intros Hf. unfold votes. induction ps as [|p ps IH]; [done |].
  rewrite fmap_cons, !filter_cons.
  destruct (decide (p = c)) as [->|Hne].
  - rewrite decide_True by done. simpl. by rewrite IH.
  - rewrite decide_False; [done |]. intros H. by apply Hf in H.
Qed.

Lemma wins_fmap {A B : Type} `{EqDecision A, EqDecision B} (f : A → B) c (ps : list A) :
  Inj (=) (=) f → wins (f c) (f <$> ps) → wins c ps.
Proof.
  intros Hf (Hin & Hmax & Htie). split; [| split].
  - apply list_elem_of_fmap in Hin as (c0 & Hc0 & Hin). by apply Hf in Hc0 as ->.
  - intros c'. specialize (Hmax (f c')). by rewrite !votes_fmap in Hmax.
  - intros c' Hne Hv.
    destruct (Htie (f c')) as (pre & post & Heq & Hnin).
    { intros H. by apply Hf in H. }
    { by rewrite !votes_fmap. }
    apply fmap_app_inv in Heq as (pre' & rest & -> & Hrest & ->).
    symmetry in Hrest. apply fmap_cons_inv in Hrest as (c0 & post' & Hc0 & -> & ->).
    apply Hf in Hc0 as <-. exists pre', post'. split; [done |].
    intros H. apply Hnin. by apply list_elem_of_fmap_2.
Qed.

Lemma elem_of_domains_of d emails :
  d ∈ domains_of emails ↔ ∃ e u, e ∈ emails ∧ parse_email e = Some (u, d).
Proof.
  unfold domains_of, parsed. rewrite elem_of_list_to_set, list_elem_of_fmap. split.
  - intros ([u d'] & -> & H). apply list_elem_of_omap in H as (e & He & Hp). eauto.
  - intros (e & u & He & Hp). exists (u, d). split; [done |].
    apply list_elem_of_omap. eauto.
Qed.

Lemma parsed_shared emails locals domain :
  Forall2 (fun e u => parse_email e = Some (u, domain)) emails locals →
  parsed emails = (fun u => (u, domain)) <$> locals.
Proof.
  induction 1 as [|e u emails locals He _ IH]; [done |].
  unfold parsed in *. simpl. rewrite He. simpl. f_equal. apply IH.
Qed.

Lemma detect_returns emails :
  ∃ r, detect_email_pattern emails = Ok r
       ∧ (r = None ∨ ∃ c, r = Some (pattern_name c)).
Proof.
  destruct (detect_cases emails) as [[-> _]|(c & -> & _ & _ & Hin & _)].
  - eauto.
  - eexists. split; [done |]. right.
    apply list_elem_of_fmap in Hin as (u & -> & _). rewrite classify_category. eauto.
Qed.

End DetectShape.

(** ** [generate_likely_email] *)

Section Generate.

Import EmailExtractor Spec.

Lemma generate_guards_passed name company website known tokens first_name last_name domain :
  Str.split_ws (Str.lower name) = tokens →
  2 ≤ length tokens →
  head tokens = Some first_name →
  last tokens = Some last_name →
  Re.search_group website_prefix website_host website = Some domain →
  generate_likely_email name company website known =
    match known with
    | Some (e :: es) =>
        pattern ← detect_email_pattern (e :: es);
        match pattern with
        | Some p =>
            match (if String.eqb p EmptyString then None
                   else render p first_name last_name
                          (Str.initial first_name) (Str.initial last_name) domain) with
            | Some email => Ok (Some email)
            | None => Ok (Some (fallback first_name last_name domain))
            end
        | None => Ok (Some (fallback first_name last_name domain))
        end
    | _ => Ok (Some (fallback first_name last_name domain))
    end.
Proof.
  intros Htok Hlen Hhead Hlast Hdom. unfold generate_likely_email.
  destruct (String.eqb_spec name EmptyString) as [->|_].
  { subst tokens. simpl in Hlen. lia. }
  destruct (String.eqb_spec name "Unknown") as [->|_].
  { subst tokens. vm_compute in Hlen. lia. }
  destruct (String.eqb_spec website EmptyString) as [->|_].
  { vm_compute in Hdom. discriminate. }
  simpl. rewrite Hdom, Htok.
  destruct (Nat.ltb_spec (length tokens) 2) as [?|_]; [lia |].
  assert (py_index tokens 0 = Ok first_name) as ->.
  { unfold py_index. destruct tokens; simplify_eq/=. done. }
  assert (py_last tokens = Ok last_name) as ->.
  { unfold py_last, py_index. by rewrite Nat.sub_1_r, <- last_lookup, Hlast. }
  assert (∀ r : result (option string),
    (from_pattern ← r;
     match from_pattern with
     | Some email => Ok (Some email)
     | None => Ok (head (map (fun format_str => format format_str
          (fun f => match f with
                    | First => first_name | Last => last_name
                    | First_initial => Str.initial first_name
                    | Last_initial => Str.initial last_name
                    | Domain => domain end)) email_formats))
     end) =
    (from_pattern ← r;
     match from_pattern with
     | Some email => Ok (Some email)
     | None => Ok (Some (fallback first_name last_name domain))
     end)) as Hfb.
  { intros [[?|]|?]; simpl; try done. unfold fallback. by rewrite append_empty_r. }
  simpl. rewrite Hfb. clear Hfb.
  destruct known as [[|e es]|]; simpl; try done.
  destruct (detect_email_pattern (e :: es)) as [[p|]|?]; simpl; try done.
  destruct (String.eqb p EmptyString); simpl; [done |].
  by destruct (render _ _ _ _ _ _).
Qed.

Lemma generate_one_token name company website known :
  length (Str.split_ws (Str.lower name)) < 2 →
  generate_likely_email name company website known = Ok None.
Proof.
  intros Hlen. unfold generate_likely_email.
  destruct (_ || _ || _); [done |].
  destruct (Re.search_group _ _ _); [| done].
  destruct (Nat.ltb_spec (length (Str.split_ws (Str.lower name))) 2); [done | lia].
Qed.

Lemma generate_no_domain name company website known :
  Re.search_group website_prefix website_host website = None →
  generate_likely_email name company website known = Ok None.
Proof.
  intros Hdom. unfold generate_likely_email.
  destruct (_ || _ || _); [done |]. by rewrite Hdom.
Qed.

Lemma generate_returns name company website known :
  ∃ r, generate_likely_email name company website known = Ok r.
Proof.
  destruct (Re.search_group website_prefix website_host website) as [domain|] eqn:Hdom;
    [| rewrite generate_no_domain; eauto].
  destruct (Nat.ltb_spec (length (Str.split_ws (Str.lower name))) 2) as [Hlen|Hlen];
    [rewrite generate_one_token; eauto |].
  destruct (Str.split_ws (Str.lower name)) as [|t ts] eqn:Htok; [simpl in Hlen; lia |].
  destruct (last (t :: ts)) as [t'|] eqn:Hlast;
    [| apply last_None in Hlast; discriminate].
  rewrite (generate_guards_passed name company website known (t :: ts) t t' domain);
    try done.
  destruct known as [[|e es]|]; eauto.
  destruct (detect_returns (e :: es)) as (r & -> & _). simpl.
  destruct r as [p|]; eauto.
  destruct (if String.eqb p EmptyString then None else _); eauto.
Qed.

End Generate.

(** ** The detector and the synthesizer against the specification *)

Section EmailClaims.

Import EmailExtractor Spec.

Lemma render_template p first_name last_name domain :
  render (pattern_name p) first_name last_name
    (Str.initial first_name) (Str.initial last_name) domain
  = template p first_name last_name domain.
Proof. by destruct p. Qed.

Lemma generate_with_tokens name company website known tokens first_name last_name domain :
  name_tokens name = tokens → 2 ≤ length tokens →
  head tokens = Some first_name → last tokens = Some last_name →
  website_domain website = Some domain →
  generate_likely_email name company website known =
    match known with
    | Some (e :: es) =>
        match detect_email_pattern (e :: es) with
        | Ok (Some p) =>
            match (if String.eqb p EmptyString then None
                   else render p first_name last_name
                          (Str.initial first_name) (Str.initial last_name) domain) with
            | Some email => Ok (Some email)
            | None => Ok (Some (fallback first_name last_name domain))
            end
        | Ok None => Ok (Some (fallback first_name last_name domain))
        | Raise e => Raise e
        end
    | _ => Ok (Some (fallback first_name last_name domain))
    end.
Proof.
  intros. erewrite generate_guards_passed by done.
  destruct known as [[|e es]|]; done.
Qed.

(** C2. When known e-mails are given and the detector returns a concrete
    pattern, the synthesizer renders that pattern's template with the
    first and last token of the lower-cased name and the host read from
    the website; for Jane Doe, a website whose host is acme.com and the
    known addresses j.s@acme.com and k.l@acme.com the result is
    jane.doe@acme.com. *)
Theorem synthesize_renders_detected_pattern :
  (∀ name company website known tokens first_name last_name domain pattern email,
     name_tokens name = tokens → 2 ≤ length tokens →
     head tokens = Some first_name → last tokens = Some last_name →
     website_domain website = Some domain →
     known ≠ [] →
     detect_email_pattern known = Ok (Some (pattern_name pattern)) →
     template pattern first_name last_name domain = Some email →
     generate_likely_email name company website (Some known) = Ok (Some email))
  ∧ (∀ company website,
       website_domain website = Some "acme.com" →
       generate_likely_email "Jane Doe" company website
         (Some ["j.s@acme.com"; "k.l@acme.com"]) = Ok (Some "jane.doe@acme.com"))
  ∧ website_domain "https://acme.com" = Some "acme.com"
  ∧ website_domain "http://www.acme.com/about" = Some "acme.com".
Proof.
  split; [| split; [| split; vm_compute; reflexivity]].
  - intros name company website known tokens first_name last_name domain pattern email
      Htok Hlen Hhead Hlast Hdom Hne Hdet Htpl.
    rewrite (generate_with_tokens _ _ _ _ _ _ _ _ Htok Hlen Hhead Hlast Hdom).
    destruct known as [|e es]; [done |]. rewrite Hdet.
    rewrite render_template, Htpl. by destruct pattern.
  - intros company website Hdom.
    rewrite (generate_with_tokens _ _ _ _ ["jane"; "doe"] "jane" "doe" "acme.com");
      [| by vm_compute | simpl; lia | done | done | done].
    reflexivity.
Qed.

Lemma synthesize_renders_detected_pattern_witness :
  generate_likely_email "Jane Doe" "Acme" "https://www.acme.com"
    (Some ["j.s@acme.com"; "k.l@acme.com"]) = Ok (Some "jane.doe@acme.com").
Proof.
  apply (proj1 synthesize_renders_detected_pattern "Jane Doe" "Acme" "https://www.acme.com"
           ["j.s@acme.com"; "k.l@acme.com"] ["jane"; "doe"] "jane" "doe" "acme.com"
           FirstDotLast).
  - vm_compute; reflexivity.
  - simpl; lia.
  - reflexivity.
  - reflexivity.
  - vm_compute; reflexivity.
  - discriminate.
  - vm_compute; reflexivity.
  - reflexivity.
Defined.

(** C3. The synthesizer cannot generate when the name has fewer than two
    whitespace tokens or when no host can be read from the website (so for
    the name Solo); otherwise, when no known e-mails are given or the
    detector returns no concrete pattern, it returns the first of the seven
    candidate formats, first.last@domain. *)
Theorem synthesize_sentinel_or_first_candidate :
  (∀ name company website known,
     length (name_tokens name) < 2 ∨ website_domain website = None →
     generate_likely_email name company website known = Ok None)
  ∧ (∀ company website known,
       generate_likely_email "Solo" company website known = Ok None)
  ∧ (∀ name company website known tokens first_name last_name domain,
       name_tokens name = tokens → 2 ≤ length tokens →
       head tokens = Some first_name → last tokens = Some last_name →
       website_domain website = Some domain →
       (known = None ∨ known = Some []
        ∨ ∃ l, known = Some l
               ∧ (detect_email_pattern l = Ok None
                  ∨ detect_email_pattern l = Ok (Some (pattern_name Unknown)))) →
       generate_likely_email name company website known
         = Ok ((fun format_str => format format_str (name_env first_name last_name domain))
                 <$> head email_formats)
       ∧ generate_likely_email name company website known
         = Ok (Some (first_name ++ "." ++ last_name ++ "@" ++ domain)))
  ∧ length email_formats = 7.
Proof.
  split; [| split; [| split; [| done]]].
  - intros name company website known [Hlen|Hdom].
    + by apply generate_one_token.
    + by apply generate_no_domain.
  - intros company website known. apply generate_one_token. vm_compute. lia.
  - intros name company website known tokens first_name last_name domain
      Htok Hlen Hhead Hlast Hdom Hknown.
    assert (generate_likely_email name company website known
            = Ok (Some (fallback first_name last_name domain))) as ->.
    { rewrite (generate_with_tokens _ _ _ _ _ _ _ _ Htok Hlen Hhead Hlast Hdom).
      destruct Hknown as [->|[->|(l & -> & Hdet)]]; [done | done |].
      destruct l as [|e es]; [done |].
      by destruct Hdet as [-> | ->]. }
    split; [| done].
    simpl. unfold fallback. by rewrite append_empty_r.
Qed.

Lemma synthesize_sentinel_or_first_candidate_witness :
  generate_likely_email "Ada" "Acme" "https://acme.com" None = Ok None
  ∧ generate_likely_email "Jane Doe" "Acme" "acme.com" None = Ok None
  ∧ generate_likely_email "Jane Q Doe" "Acme" "https://acme.com/team"
      (Some ["info@acme.com"; "sales@other.org"]) = Ok (Some "jane.doe@acme.com").
Proof.
  split; [| split].
  - apply (proj1 synthesize_sentinel_or_first_candidate). left. vm_compute. lia.
  - apply (proj1 synthesize_sentinel_or_first_candidate). right. vm_compute. reflexivity.
  - apply (proj1 (proj2 (proj2 synthesize_sentinel_or_first_candidate))
             "Jane Q Doe" "Acme" "https://acme.com/team" _ ["jane"; "q"; "doe"]
             "jane" "doe" "acme.com").
    + vm_compute; reflexivity.
    + simpl; lia.
    + reflexivity.
    + reflexivity.
    + vm_compute; reflexivity.
    + right. right. eexists. split; [reflexivity |]. left. vm_compute. reflexivity.
Defined.

(** C4. For two or more addresses sharing one domain the detector
    classifies each local part in the priority order of [category] and
    returns the category with the most votes, the one seen first among
    those with as many; the addresses a.b@x.com and c.d@x.com give
    FirstDotLast. *)
Theorem detect_majority_first_seen :
  (∀ emails locals domain,
     2 ≤ length emails →
     Forall2 (fun e u => parse_email e = Some (u, domain)) emails locals →
     ∃ c, detect_email_pattern emails = Ok (Some (pattern_name c))
          ∧ wins c (category <$> locals))
  ∧ detect_email_pattern ["a.b@x.com"; "c.d@x.com"] = Ok (Some (pattern_name FirstDotLast)).
Proof.
  split; [| vm_compute; reflexivity].
  intros emails locals domain Hlen Hall.
  pose proof (parsed_shared _ _ _ Hall) as Hp.
  assert (usernames_of emails = locals) as Hu.
  { unfold usernames_of. rewrite Hp, <- list_fmap_compose. apply list_fmap_id. }
  destruct (detect_cases emails) as [[_ [?|Hsz]]|(c & Hdet & _ & _ & Hwin)]; [lia | |].
  - exfalso. apply Hsz. unfold domains_of. rewrite Hp, <- list_fmap_compose.
    destruct Hall as [|e u emails locals He Hall]; [simpl in Hlen; lia |].
    assert (list_to_set ((snd ∘ (fun u => (u, domain))) <$> u :: locals)
            = ({[domain]} : gset string)) as ->.
    { clear. induction locals as [|u' locals IH]; simpl in *; set_solver. }
    apply size_singleton.
  - rewrite Hu in Hwin.
    assert (∃ p, c = pattern_name p) as [p ->].
    { destruct Hwin as [Hin _]. apply list_elem_of_fmap in Hin as (u & -> & _).
      rewrite classify_category. eauto. }
    exists p. split; [done |].
    apply (wins_fmap pattern_name); [apply pattern_name_inj |].
    rewrite <- list_fmap_compose.
    erewrite list_fmap_ext; [exact Hwin |].
    intros _ u _. simpl. by rewrite classify_category.
Qed.

Lemma detect_majority_first_seen_witness :
  ∃ c, detect_email_pattern ["jdoe@x.com"; "a.b@x.com"; "c.d@x.com"; "smith@x.com"]
         = Ok (Some (pattern_name c))
       ∧ wins c [FirstInitialLast; FirstDotLast; FirstDotLast; FirstInitialLast].
Proof.
  apply (proj1 detect_majority_first_seen
           ["jdoe@x.com"; "a.b@x.com"; "c.d@x.com"; "smith@x.com"]
           ["jdoe"; "a.b"; "c.d"; "smith"] "x.com").
  - simpl; lia.
  - repeat constructor.
Defined.

(** C5. The detector returns [None] when fewer than two addresses are
    given and when the addresses have more than one domain, as for
    a@x.com and b@y.com. *)
Theorem detect_none_few_or_mixed (emails : list string) :
  length emails < 2 ∨ mixed_domains emails →
  detect_email_pattern emails = Ok None.
Proof.
  intros H. destruct (detect_cases emails) as [[-> _]|(c & _ & Hlen & Hsz & _)]; [done |].
  exfalso. destruct H as [?|(e1 & e2 & u1 & d1 & u2 & d2 & H1 & H2 & Hp1 & Hp2 & Hne)]; [lia |].
  apply Hne. apply (size_singleton_inv (domains_of emails)); [done | |];
    apply elem_of_domains_of; eauto.
Qed.

Lemma detect_none_few_or_mixed_witness :
  detect_email_pattern ["a@x.com"; "b@y.com"] = Ok None.
Proof.
  apply detect_none_few_or_mixed. right.
  exists "a@x.com", "b@y.com", "a", "x.com", "b", "y.com".
  split; [left |]. split; [right; left |].
  split; [reflexivity |]. split; [reflexivity |]. discriminate.
Defined.

End EmailClaims.

(** ** The phone normalizer *)

Section Phone.

Import WebsiteAnalyzer Spec.

Lemma match_here_one_char p c s :
  Re.match_here (Re.Cls p 1 (Some 1)) (String c s)
  = if p c then Some (String c EmptyString, 1) else None.
Proof.
  unfold Re.match_here, Re.consumed. simpl. destruct (p c); [| done].
  assert (Re.run_length p (Some 0) s = 0) as -> by by destruct s.
  simpl. by rewrite Nat.sub_succ_l, Nat.sub_diag by lia.
Qed.

(** [re.sub(r'\D', '', phone)] keeps the digits. *)
Lemma strip_non_digits phone :
  Re.sub_empty (Re.Cls (fun c => negb (Str.is_digit c)) 1 (Some 1)) phone = digits phone.
Proof.
  unfold Re.sub_empty, digits. induction phone as [|c s IH]; [done |].
  cbn [Re.delete_scan Str.filter]. rewrite match_here_one_char.
  destruct (Str.is_digit c); simpl; by rewrite IH.
Qed.

Lemma format_phone_unfold phone :
  _format_phone_number phone =
    let digits := digits phone in
    if String.length digits =? 10 then
      "(" ++ Str.slice 0 3 digits ++ ") " ++ Str.slice 3 6 digits ++ "-" ++ Str.drop 6 digits
    else if String.length digits =? 11 then
      "+" ++ Str.slice 0 1 digits ++ " (" ++ Str.slice 1 4 digits ++ ") "
          ++ Str.slice 4 7 digits ++ "-" ++ Str.drop 7 digits
    else phone.
Proof. unfold _format_phone_number. by rewrite strip_non_digits. Qed.

Lemma format_ten phone a b c d e f g h i j :
  digits phone = string_of_list_ascii [a; b; c; d; e; f; g; h; i; j] →
  _format_phone_number phone = ten_digit_form a b c d e f g h i j.
Proof. intros Hd. rewrite format_phone_unfold, Hd. reflexivity. Qed.

Lemma format_eleven phone k a b c d e f g h i j :
  digits phone = string_of_list_ascii [k; a; b; c; d; e; f; g; h; i; j] →
  _format_phone_number phone = eleven_digit_form k a b c d e f g h i j.
Proof. intros Hd. rewrite format_phone_unfold, Hd. reflexivity. Qed.

Lemma format_other phone :
  String.length (digits phone) ≠ 10 → String.length (digits phone) ≠ 11 →
  _format_phone_number phone = phone.
Proof.
  intros H10 H11. rewrite format_phone_unfold. simpl.
  destruct (Nat.eqb_spec (String.length (digits phone)) 10); [done |].
  destruct (Nat.eqb_spec (String.length (digits phone)) 11); done.
Qed.

Lemma digits_digits s : digits (digits s) = digits s.
Proof. apply str_filter_id, str_filter_all_chars. Qed.

Ltac digit_facts H :=
  simpl in H; repeat (apply andb_true_iff in H as [?Hd H]).

Lemma digits_ten_form a b c d e f g h i j :
  Str.all_chars Str.is_digit (string_of_list_ascii [a; b; c; d; e; f; g; h; i; j]) = true →
  digits (ten_digit_form a b c d e f g h i j)
  = string_of_list_ascii [a; b; c; d; e; f; g; h; i; j].
Proof.
  intros H. digit_facts H. unfold digits, ten_digit_form. cbn [string_of_list_ascii Str.filter].
  repeat match goal with Hx : Str.is_digit _ = true |- _ => rewrite Hx; clear Hx end.
  reflexivity.
Qed.

Lemma digits_eleven_form k a b c d e f g h i j :
  Str.all_chars Str.is_digit (string_of_list_ascii [k; a; b; c; d; e; f; g; h; i; j]) = true →
  digits (eleven_digit_form k a b c d e f g h i j)
  = string_of_list_ascii [k; a; b; c; d; e; f; g; h; i; j].
Proof.
  intros H. digit_facts H. unfold digits, eleven_digit_form. cbn [string_of_list_ascii Str.filter].
  repeat match goal with Hx : Str.is_digit _ = true |- _ => rewrite Hx; clear Hx end.
  reflexivity.
Qed.

Lemma string_of_length n (s : string) :
  String.length s = n → ∃ l, length l = n ∧ s = string_of_list_ascii l.
Proof.
  intros <-. exists (list_ascii_of_string s).
  split; [| by rewrite string_of_list_ascii_of_string].
  induction s as [|c s IH]; simpl; [done | by rewrite IH].
Qed.

(** The normalizer leaves its own results unchanged. *)
Lemma format_phone_idempotent phone :
  _format_phone_number (_format_phone_number phone) = _format_phone_number phone.
Proof.
  pose proof (str_filter_all_chars Str.is_digit phone) as Hall. fold (digits phone) in Hall.
  destruct (decide (String.length (digits phone) = 10)) as [H10|H10].
  - apply string_of_length in H10 as (l & Hl & Hd).
    do 11 (destruct l as [|? l]; try discriminate Hl). rewrite Hd in Hall.
    rewrite (format_ten _ _ _ _ _ _ _ _ _ _ _ Hd).
    apply format_ten. by apply digits_ten_form.
  - destruct (decide (String.length (digits phone) = 11)) as [H11|H11].
    + apply string_of_length in H11 as (l & Hl & Hd).
      do 12 (destruct l as [|? l]; try discriminate Hl). rewrite Hd in Hall.
      rewrite (format_eleven _ _ _ _ _ _ _ _ _ _ _ _ Hd).
      apply format_eleven. by apply digits_eleven_form.
    + rewrite (format_other phone H10 H11). by apply format_other.
Qed.

(** C6. The normalizer is idempotent on every string; ten digits give
    (AAA) BBB-CCCC, eleven digits give +D (AAA) BBB-CCCC with the first
    digit as country code, and any other number of digits leaves the
    input as it is. *)
Theorem canonicalize_idempotent_and_forms :
  (∀ phone, _format_phone_number (_format_phone_number phone) = _format_phone_number phone)
  ∧ (∀ phone a b c d e f g h i j,
       digits phone = string_of_list_ascii [a; b; c; d; e; f; g; h; i; j] →
       _format_phone_number phone = ten_digit_form a b c d e f g h i j)
  ∧ (∀ phone k a b c d e f g h i j,
       digits phone = string_of_list_ascii [k; a; b; c; d; e; f; g; h; i; j] →
       _format_phone_number phone = eleven_digit_form k a b c d e f g h i j)
  ∧ (∀ phone,
       String.length (digits phone) ≠ 10 → String.length (digits phone) ≠ 11 →
       _format_phone_number phone = phone).
Proof.
  split; [apply format_phone_idempotent |].
  split; [apply format_ten |].
  split; [apply format_eleven | apply format_other].
Qed.

Lemma canonicalize_idempotent_and_forms_witness :
  _format_phone_number "555.123.4567" = "(555) 123-4567"
  ∧ _format_phone_number "+1 555 123 4567" = "+1 (555) 123-4567"
  ∧ _format_phone_number "+44 20 7946 0958" = "+44 20 7946 0958".
Proof.
  destruct canonicalize_idempotent_and_forms as (_ & Hten & Heleven & Hother).
  split; [| split].
  - apply (Hten "555.123.4567" "5"%char "5"%char "5"%char "1"%char "2"%char "3"%char
             "4"%char "5"%char "6"%char "7"%char).
    vm_compute; reflexivity.
  - apply (Heleven "+1 555 123 4567" "1"%char "5"%char "5"%char "5"%char "1"%char
             "2"%char "3"%char "4"%char "5"%char "6"%char "7"%char).
    vm_compute; reflexivity.
  - apply (Hother "+44 20 7946 0958"); vm_compute; lia.
Defined.

End Phone.

(** ** The matcher returns matches *)

Section MatcherSound.

Import Re Sem.

Lemma str_length_app (s t : string) :
  String.length (s ++ t) = String.length s + String.length t.
Proof.
  induction s as [|c s IH]; [done |]. rewrite append_cons. simpl. by rewrite IH.
Qed.

Lemma consumed_app (m rest : string) : consumed (m ++ rest) rest = m.
Proof.
  unfold consumed. rewrite str_length_app.
  replace (String.length m + String.length rest - String.length rest)
    with (String.length m) by lia.
  induction m as [|c m IH]; [by destruct rest |].
  rewrite append_cons. simpl. by rewrite IH.
Qed.

Lemma run_length_bound p cap s :
  run_length p cap s ≤ String.length s
  ∧ match cap with Some h => run_length p cap s ≤ h | None => True end.
Proof.
  revert cap. induction s as [|c s IH]; intros cap.
  - destruct cap as [[|h]|]; simpl; lia.
  - destruct cap as [[|h]|]; simpl; [lia | |].
    + destruct (p c); [| lia]. destruct (IH (Some h)) as [H1 H2]. simpl in *. lia.
    + destruct (p c); [| lia]. destruct (IH None) as [H1 _]. simpl in *. lia.
Qed.

Lemma run_length_prefix p cap s j :
  j ≤ run_length p cap s → Str.all_chars p (Str.take j s) = true.
Proof.
  revert cap j. induction s as [|c s IH]; intros cap j.
  - by destruct j.
  - destruct j as [|j]; [done |].
    destruct cap as [[|h]|]; simpl; [lia | |].
    + destruct (p c) eqn:Hc; [| lia]. intros H. simpl. apply (IH (Some h)).
      simpl. lia.
    + destruct (p c) eqn:Hc; [| lia]. intros H. simpl. apply (IH None).
      simpl. lia.
Qed.

(** If the matcher succeeds, the continuation was given the rest of the
    input after a string of the pattern. *)
Lemma bt_sound {B : Type} r s (k : string → option B) b :
  bt r s k = Some b →
  ∃ m rest, s = m ++ rest ∧ lang r m ∧ k rest = Some b.
Proof.
  revert s k. induction r as [l|p lo hi|r1 IH1 r2 IH2|r1 IH1 r2 IH2|r1 IH1|];
    intros s k; cbn [bt lang].
  - destruct (Str.strip_prefix l s) as [rest|] eqn:Hl; [| done].
    intros Hk. exists l, rest. split; [by apply strip_prefix_Some | done].
  - destruct (Nat.ltb_spec (run_length p hi s) lo) as [|Hlo]; [done |].
    intros (j & Hj & Hk)%give_back_Some.
    destruct (run_length_bound p hi s) as [Hlen Hcap].
    exists (Str.take j s), (Str.drop j s).
    split; [by rewrite str_take_drop |]. split; [| done].
    split; [apply (run_length_prefix p hi); lia |].
    rewrite str_length_take_le by lia. split; [lia |].
    destruct hi; [lia | done].
  - intros (m1 & rest1 & -> & H1 & (m2 & rest2 & -> & H2 & Hk)%IH2)%IH1.
    exists (m1 ++ m2), rest2. split; [by rewrite append_assoc |].
    split; [by exists m1, m2 | done].
  - destruct (bt r1 s k) eqn:H1.
    + intros [= ->]. apply IH1 in H1 as (m & rest & ? & ? & ?). eauto 6.
    + intros (m & rest & ? & ? & ?)%IH2. eauto 6.
  - destruct (bt r1 s k) eqn:H1.
    + intros [= ->]. apply IH1 in H1 as (m & rest & ? & ? & ?). eauto 6.
    + intros Hk. exists EmptyString, s. eauto.
  - destruct (at_end s); [| done]. intros Hk. exists EmptyString, s. eauto.
Qed.

Lemma match_here_sound r s m n :
  match_here r s = Some (m, n) →
  lang r m ∧ n = String.length m ∧ ∃ rest, s = m ++ rest.
Proof.
  unfold match_here. intros (m' & rest & -> & Hm & [= <- <-])%bt_sound.
  rewrite consumed_app, str_length_app.
  split; [done |]. split; [lia | eauto].
Qed.

(** Every value found by a scan was matched at some position of the
    text. *)
Lemma scan_elem {A : Type} (m : string → option (A * nat)) skip s a :
  a ∈ scan m skip s → ∃ pre s' n, s = pre ++ s' ∧ m s' = Some (a, n).
Proof.
  revert skip. induction s as [|c s IH]; intros skip; simpl.
  - intros H. by apply elem_of_nil in H.
  - assert (∀ skip', a ∈ scan m skip' s →
              ∃ pre s' n, String c s = pre ++ s' ∧ m s' = Some (a, n)) as Hrest.
    { intros skip' (pre & s' & n & -> & Hm)%IH. by exists (String c pre), s', n. }
    destruct skip as [|j]; [| apply Hrest].
    destruct (m (String c s)) as [[a' n]|] eqn:Hm; [| apply Hrest].
    intros [->|H]%elem_of_cons; [| by eapply Hrest].
    by exists EmptyString, (String c s), n.
Qed.

Lemma findall_sound r s m :
  m ∈ findall r s → lang r m ∧ substring_of m s.
Proof.
  unfold findall. intros (pre & s' & n & -> & Hm)%scan_elem.
  apply match_here_sound in Hm as (Hl & _ & rest & ->).
  split; [done |]. by exists pre, rest.
Qed.

End MatcherSound.

(** ** The e-mail extractors *)

Section Emails.

Import WebsiteAnalyzer Spec.

Lemma list_set_NoDup xs : NoDup (EmailExtractor.list_set xs).
Proof. unfold EmailExtractor.list_set. apply NoDup_elements. Qed.

Lemma elem_of_list_set x xs : x ∈ EmailExtractor.list_set xs ↔ x ∈ xs.
Proof. unfold EmailExtractor.list_set. by rewrite elem_of_elements, elem_of_list_to_set. Qed.

(** C7, as stated, fails.  On a text with the same address twice,
    [_extract_emails] returns it twice, and the address is kept although
    its domain mail.example.com contains the word example; and
    [extract_emails_from_text] does not filter at all. *)
Lemma extract_emails_not_a_filtered_set :
  let text := "bob@mail.example.com, bob@mail.example.com" in
  _extract_emails text = ["bob@mail.example.com"; "bob@mail.example.com"]
  ∧ ¬ NoDup (_extract_emails text)
  ∧ parse_email "bob@mail.example.com" = Some ("bob", "mail.example.com")
  ∧ Str.contains "example" "mail.example.com" = true
  ∧ EmailExtractor.extract_emails_from_text "x@example.com" = ["x@example.com"].
Proof.
  assert (_extract_emails "bob@mail.example.com, bob@mail.example.com"
          = ["bob@mail.example.com"; "bob@mail.example.com"]) as H
    by (vm_compute; reflexivity).
  cbv zeta. rewrite H. split; [done |]. split.
  - intros Hnd. apply NoDup_cons in Hnd as [Hnin _]. apply Hnin. left.
  - repeat split; vm_compute; reflexivity.
Qed.

(** The two tests of the loop of [_extract_emails], read as a property of
    the address. *)
Lemma kept_address_test email :
  negb (Str.contains "@example" email || Str.contains "@domain" email
        || Str.contains "@email" email)
  && negb (Str.contains ".jpg@" email || Str.contains ".png@" email
           || Str.contains ".gif@" email) = true
  ↔ kept_address email.
Proof.
  unfold kept_address.
  rewrite andb_true_iff, !negb_true_iff, !orb_false_iff.
  split.
  - intros [[[H1 H2] H3] [[H4 H5] H6]]. split.
    + intros local_part word rest Hw ->.
      assert (∀ w, Str.contains (String "@" w) (local_part ++ "@" ++ w ++ rest) = true) as Hc.
      { intros w. apply contains_spec. by exists local_part, rest. }
      rewrite !elem_of_cons in Hw. destruct Hw as [->|[->|[->|Hw]]];
        [| | | by apply elem_of_nil in Hw].
      * by rewrite Hc in H1.
      * by rewrite Hc in H2.
      * by rewrite Hc in H3.
    + intros stem ext rest Hx ->.
      assert (∀ x, Str.contains (x ++ "@") (stem ++ x ++ "@" ++ rest) = true) as Hc.
      { intros x. apply contains_spec. exists stem, rest. by rewrite append_assoc. }
      rewrite !elem_of_cons in Hx. destruct Hx as [->|[->|[->|Hx]]];
        [| | | by apply elem_of_nil in Hx].
      * pose proof (Hc ".jpg" : Str.contains ".jpg@" _ = true). congruence.
      * pose proof (Hc ".png" : Str.contains ".png@" _ = true). congruence.
      * pose proof (Hc ".gif" : Str.contains ".gif@" _ = true). congruence.
  - intros [Hdom Himg].
    assert (∀ w, w ∈ ["example"; "domain"; "email"] →
              Str.contains (String "@" w) email = false) as Hd.
    { intros w Hw. destruct (Str.contains (String "@" w) email) eqn:Hc; [| done].
      apply contains_spec in Hc as (pre & suf & ->). by destruct (Hdom pre w suf). }
    assert (∀ x, x ∈ [".jpg"; ".png"; ".gif"] →
              Str.contains (x ++ "@") email = false) as Hi.
    { intros x Hx. destruct (Str.contains (x ++ "@") email) eqn:Hc; [| done].
      apply contains_spec in Hc as (pre & suf & ->).
      destruct (Himg pre x suf); [done |]. by rewrite append_assoc. }
    repeat split.
    + apply (Hd "example"). left.
    + apply (Hd "domain"). right. left.
    + apply (Hd "email"). right. right. left.
    + apply (Hi ".jpg"). left.
    + apply (Hi ".png"). right. left.
    + apply (Hi ".gif"). right. right. left.
Qed.

(** A filter by a test that decides [keep] removes exactly the entries
    not to be kept, and no other list does. *)
Lemma kept_in_place_filter (keep : string → Prop) (f : string → bool) xs :
  (∀ x, f x = true ↔ keep x) → kept_in_place keep xs (List.filter f xs).
Proof.
  intros Hf. induction xs as [|x xs IH]; simpl; [constructor |].
  destruct (f x) eqn:Hx.
  - apply kept_keep; [by apply Hf | done].
  - apply kept_drop; [| done]. rewrite <- Hf. congruence.
Qed.

Lemma kept_in_place_unique (keep : string → Prop) xs ys ys' :
  kept_in_place keep xs ys → kept_in_place keep xs ys' → ys = ys'.
Proof.
  intros H. revert ys'.
  induction H as [|x xs ys Hx _ IH|x xs ys Hx _ IH]; intros ys' H';
    inversion H'; subst; try done.
  - f_equal. by apply IH.
  - by apply IH.
Qed.

Lemma kept_in_place_elem (keep : string → Prop) xs ys :
  kept_in_place keep xs ys → ∀ x, x ∈ ys ↔ x ∈ xs ∧ keep x.
Proof.
  induction 1 as [|y xs ys Hy _ IH|y xs ys Hy _ IH]; intros x.
  - split; [intros H | intros [H _]]; by apply elem_of_nil in H.
  - rewrite !elem_of_cons, IH. naive_solver.
  - rewrite elem_of_cons, IH. naive_solver.
Qed.

Lemma occur_in_order_gap p ms text :
  occur_in_order ms text → occur_in_order ms (p ++ text).
Proof.
  intros [text'|gap m ms' text' H]; [constructor |].
  rewrite <- append_assoc. by constructor.
Qed.

Lemma occur_in_order_filter (f : string → bool) ms text :
  occur_in_order ms text → occur_in_order (List.filter f ms) text.
Proof.
  induction 1 as [text|gap m ms text _ IH]; simpl; [constructor |].
  destruct (f m).
  - by constructor.
  - rewrite <- append_assoc. by apply occur_in_order_gap.
Qed.

(** A scan lists its matches from left to right: each one stands in the
    text behind the one before. *)
Lemma scan_in_order (m : string → option (string * nat)) :
  (∀ s a n, m s = Some (a, n) → n = String.length a ∧ ∃ rest, s = a ++ rest) →
  ∀ s skip, occur_in_order (Re.scan m skip s) (Str.drop skip s).
Proof.
  intros Hm. induction s as [|c s IH]; intros skip.
  - destruct skip; constructor.
  - destruct skip as [|j]; [| apply IH].
    cbn [Re.scan Str.drop].
    destruct (m (String c s)) as [[a n]|] eqn:Hcs.
    + destruct (Hm _ _ _ Hcs) as [-> [rest Hrest]].
      destruct a as [|c' a].
      * apply (occur_cons (String c EmptyString) EmptyString _ s).
        apply (IH 0).
      * rewrite append_cons in Hrest. injection Hrest as <- ->.
        specialize (IH (String.length a)). rewrite str_drop_app_length in IH.
        apply (occur_cons EmptyString (String c a) _ rest IH).
    + apply (occur_in_order_gap (String c EmptyString) _ s). apply (IH 0).
Qed.

Lemma findall_in_order r text : occur_in_order (Re.findall r text) text.
Proof.
  apply (scan_in_order (Re.match_here r)
           (fun s a n H => let '(conj _ H') := match_here_sound r s a n H in H') text 0).
Qed.

(** C7, amended.  [_extract_emails] returns the matches of the e-mail
    pattern with exactly those removed in which the at sign is followed by
    example, domain or email, or in which .jpg, .png or .gif stands before
    an at sign: the matches that are kept stay in their order and are
    returned as often as they occur, and they stand in the text in the
    order of the list.  [extract_emails_from_text] returns the matches
    without repetition and without filtering. *)
Theorem extract_emails_filtered_matches (text : string) :
  kept_in_place kept_address (Re.findall email_pattern text) (_extract_emails text)
  ∧ occur_in_order (Re.findall email_pattern text) text
  ∧ occur_in_order (_extract_emails text) text
  ∧ (∀ email,
       email ∈ _extract_emails text ↔
         email ∈ Re.findall email_pattern text ∧ kept_address email)
  ∧ NoDup (EmailExtractor.extract_emails_from_text text)
  ∧ (∀ email, email ∈ EmailExtractor.extract_emails_from_text text
              ↔ email ∈ Re.findall EmailExtractor.email_pattern text).
Proof.
  assert (kept_in_place kept_address (Re.findall email_pattern text)
            (_extract_emails text)) as Hkept.
  { unfold _extract_emails.
    destruct (String.eqb_spec text EmptyString) as [->|_]; [constructor |].
    apply kept_in_place_filter, kept_address_test. }
  split; [done |]. split; [apply findall_in_order |]. split; [| split; [| split]].
  - unfold _extract_emails.
    destruct (String.eqb text EmptyString); [constructor |].
    apply occur_in_order_filter, findall_in_order.
  - by apply kept_in_place_elem.
  - unfold EmailExtractor.extract_emails_from_text.
    destruct (String.eqb text EmptyString); [constructor | apply list_set_NoDup].
  - intros email. unfold EmailExtractor.extract_emails_from_text.
    destruct (String.eqb_spec text EmptyString) as [->|_]; [done |].
    apply elem_of_list_set.
Qed.

Lemma extract_emails_filtered_matches_witness :
  "sales@acme.org" ∈ _extract_emails "write to sales@acme.org or x@example.com".
Proof.
  destruct (extract_emails_filtered_matches "write to sales@acme.org or x@example.com")
    as (_ & _ & _ & Helem & _).
  apply Helem. split; [| split].
  - vm_compute. left.
  - intros local_part word rest Hw Heq.
    assert (Str.contains (String "@" word) "sales@acme.org" = true) as Hc.
    { apply contains_spec. exists local_part, rest. exact Heq. }
    rewrite !elem_of_cons in Hw. destruct Hw as [->|[->|[->|Hw]]];
      [| | | by apply elem_of_nil in Hw]; vm_compute in Hc; discriminate Hc.
  - intros stem ext rest Hx Heq.
    assert (Str.contains (ext ++ "@") "sales@acme.org" = true) as Hc.
    { apply contains_spec. exists stem, rest. rewrite append_assoc. exact Heq. }
    rewrite !elem_of_cons in Hx. destruct Hx as [->|[->|[->|Hx]]];
      [| | | by apply elem_of_nil in Hx]; vm_compute in Hc; discriminate Hc.
Defined.

End Emails.

(** ** The crawl *)

Section Crawl.

Import WebsiteAnalyzer Spec.

Implicit Types (ci : contact_info) (info : page_info).

(** The loop over the handles of a page keeps every handle already known:
    it is the union that prefers [known]. *)
Lemma add_social_union (found known : gmap string string) :
  add_social found known = known ∪ found.
Proof.
  unfold add_social.
  apply (map_fold_weak_ind (fun r (m : gmap string string) => r = known ∪ m)).
  - by rewrite (right_id_L ∅ (∪)).
  - intros platform h m r Hm ->.
    destruct ((known ∪ m) !! platform) as [h'|] eqn:Hl.
    + apply lookup_union_Some_raw in Hl as [Hk|[_ Hm']]; [| congruence].
      apply map_eq. intros p. rewrite !lookup_union.
      destruct (decide (p = platform)) as [->|Hne].
      * rewrite Hk, Hm, lookup_insert_eq. done.
      * by rewrite lookup_insert_ne.
    + apply lookup_union_None in Hl as [Hk _]. by rewrite insert_union_r.
Qed.

Lemma add_contact_page_social info ci :
  social_media (add_contact_page info ci) = social_media ci ∪ page_social_of info.
Proof.
  unfold add_contact_page, page_social_of. simpl.
  destruct (page_social_media info) as [found|]; simpl.
  - destruct (decide (found = ∅)) as [->|_].
    + by rewrite (right_id_L ∅ (∪)).
    + apply add_social_union.
  - by rewrite (right_id_L ∅ (∪)).
Qed.

Lemma add_pages_emails infos ci :
  emails (add_pages infos ci) = (emails ci ++ concat (page_emails_of <$> infos))%list.
Proof.
  revert ci. induction infos as [|info infos IH]; intros ci; simpl.
  - by rewrite app_nil_r.
  - rewrite IH. simpl. by rewrite <- app_assoc.
Qed.

Lemma add_pages_phones infos ci :
  phone_numbers (add_pages infos ci)
  = (phone_numbers ci ++ concat (page_phones_of <$> infos))%list.
Proof.
  revert ci. induction infos as [|info infos IH]; intros ci; simpl.
  - by rewrite app_nil_r.
  - rewrite IH. simpl. by rewrite <- app_assoc.
Qed.

Lemma add_pages_social infos ci platform :
  social_media (add_pages infos ci) !! platform
  = match social_media ci !! platform with
    | Some h => Some h
    | None => first_reported platform (page_social_of <$> infos)
    end.
Proof.
  revert ci. induction infos as [|info infos IH]; intros ci; simpl.
  - by destruct (social_media ci !! platform).
  - rewrite IH, add_contact_page_social, lookup_union.
    destruct (social_media ci !! platform), (page_social_of info !! platform); done.
Qed.

Section Helpers.

Variable requests_get : string → result (Z * string).
Variable find_contact_pages : string → string → result (list string).
Variable analyze_contact_page : string → result page_info.

Lemma contact_loop_total (report : string → page_info) links ci :
  (∀ link, link ∈ links → analyze_contact_page link = Ok (report link)) →
  contact_loop analyze_contact_page links ci = (Ok (), add_pages (report <$> links) ci).
Proof.
  revert ci. induction links as [|link links IH]; intros ci Hok; [done |].
  simpl. rewrite Hok by left. apply IH. intros l Hl. apply Hok. by right.
Qed.

Lemma make_request_Some url text :
  _make_request requests_get url = Some text ↔ requests_get url = Ok (200%Z, text).
Proof.
  unfold _make_request. destruct (requests_get url) as [[status body]|e]; [| done].
  destruct (Z.eqb_spec status 200) as [->|Hne].
  - split; intros [= ->]; done.
  - split; [done | intros [= -> ->]; done].
Qed.

Lemma dom_to_dict ci :
  dom (to_dict ci) = ({["emails"; "phone_numbers"; "social_media"]} : gset string).
Proof. unfold to_dict. rewrite !dom_insert_L, dom_empty_L. set_solver. Qed.

(** Whatever happens in the [try], the function returns the dict it has
    built. *)
Lemma analyze_website_returns_dict url :
  url ≠ EmptyString →
  ∃ ci, analyze_website requests_get find_contact_pages analyze_contact_page (Some url)
        = to_dict ci.
Proof.
  intros Hne. unfold analyze_website.
  destruct (String.eqb_spec url EmptyString); [done |].
  destruct (try_body _ _ _ _ _) as [[?|?] ci]; eauto.
Qed.

Lemma analyze_website_no_url website_url :
  website_url = None ∨ website_url = Some EmptyString →
  analyze_website requests_get find_contact_pages analyze_contact_page website_url = ∅.
Proof. by intros [-> | ->]. Qed.

Lemma analyze_website_main_page_fails url :
  url ≠ EmptyString →
  _make_request requests_get url = None →
  analyze_website requests_get find_contact_pages analyze_contact_page (Some url)
  = to_dict {| emails := []; phone_numbers := []; social_media := ∅ |}.
Proof.
  intros Hne Hreq. unfold analyze_website, try_body.
  destruct (String.eqb_spec url EmptyString); [done |]. by rewrite Hreq.
Qed.

Lemma analyze_website_completes url text links (report : string → page_info) :
  url ≠ EmptyString →
  _make_request requests_get url = Some text →
  find_contact_pages url text = Ok links →
  (∀ link, link ∈ take 3 links → analyze_contact_page link = Ok (report link)) →
  analyze_website requests_get find_contact_pages analyze_contact_page (Some url)
  = to_dict (remove_duplicates
               (add_pages (report <$> take 3 links)
                  (add_main_page text
                     {| emails := []; phone_numbers := []; social_media := ∅ |}))).
Proof.
  intros Hne Hreq Hfind Hok. unfold analyze_website, try_body.
  destruct (String.eqb_spec url EmptyString); [done |].
  rewrite Hreq, Hfind. by rewrite (contact_loop_total report).
Qed.

End Helpers.

Lemma analyze_contact_page_report requests_get link :
  _analyze_contact_page requests_get link = Ok (page_report requests_get link).
Proof.
  unfold _analyze_contact_page, page_report. by destruct (_make_request _ _).
Qed.

Lemma add_no_page_info ci : add_contact_page no_page_info ci = ci.
Proof.
  destruct ci as [es ps sm]. unfold add_contact_page. simpl.
  by rewrite !app_nil_r.
Qed.

End Crawl.

(** ** The crawl against the specification *)

Section CrawlClaims.

Import WebsiteAnalyzer Spec.

Lemma elem_of_concat_fmap {A B : Type} (f : A → list B) (x : B) (l : list A) :
  x ∈ concat (f <$> l) ↔ ∃ a, a ∈ l ∧ x ∈ f a.
Proof.
  induction l as [|a l IH]; simpl.
  - split; [intros H; by apply elem_of_nil in H | intros (a & H & _); by apply elem_of_nil in H].
  - rewrite elem_of_app, IH. split.
    + intros [H|(a' & Hin & H)]; [exists a; split; [left | done] |].
      exists a'. split; [by right | done].
    + intros (a' & [->|Hin]%elem_of_cons & H); [by left |]. right. eauto.
Qed.

Lemma gathered_emails text infos e :
  e ∈ emails (gathered text infos)
  ↔ ∃ pg, pg ∈ main_page_info text :: infos ∧ e ∈ page_emails_of pg.
Proof.
  unfold gathered. rewrite add_pages_emails. simpl.
  change (_extract_emails text ++ concat (page_emails_of <$> infos))%list
    with (concat (page_emails_of <$> main_page_info text :: infos)).
  apply elem_of_concat_fmap.
Qed.

Lemma gathered_phones text infos p :
  p ∈ phone_numbers (gathered text infos)
  ↔ ∃ pg, pg ∈ main_page_info text :: infos ∧ p ∈ page_phones_of pg.
Proof.
  unfold gathered. rewrite add_pages_phones. simpl.
  change (_extract_phone_numbers text ++ concat (page_phones_of <$> infos))%list
    with (concat (page_phones_of <$> main_page_info text :: infos)).
  apply elem_of_concat_fmap.
Qed.

Lemma gathered_social text infos platform :
  social_media (gathered text infos) !! platform
  = first_reported platform (page_social_of <$> main_page_info text :: infos).
Proof.
  unfold gathered. rewrite add_pages_social. simpl.
  rewrite (right_id_L ∅ (∪)). done.
Qed.

Lemma same_digits_same_form raw1 raw2 :
  digits raw1 = digits raw2 →
  String.length (digits raw1) = 10 ∨ String.length (digits raw1) = 11 →
  _format_phone_number raw1 = _format_phone_number raw2.
Proof.
  intros Heq Hlen. rewrite !format_phone_unfold, <- Heq. simpl.
  by destruct Hlen as [-> | ->].
Qed.

(** C8, as stated, fails: the main page and the contact page of the site
    give the same twelve digits in two writings, and both writings are in
    the record. *)
Lemma phones_same_digits_both_kept :
  ∃ phones,
    analyze Example.acme_get Example.acme_find (Some "https://acme.com") !! "phone_numbers"
      = Some (VList phones)
    ∧ "+44 5551234567" ∈ phones
    ∧ "+44-555-123-4567" ∈ phones
    ∧ digits "+44 5551234567" = digits "+44-555-123-4567"
    ∧ _make_request Example.acme_get "https://acme.com"
        = Some "Mail sales@acme.com, call +44 5551234567. twitter.com/acme"
    ∧ "+44-555-123-4567" ∈ page_phones_of (page_report Example.acme_get "https://acme.com/contact").
Proof.
  exists ["+44-555-123-4567"; "+44 5551234567"; "(555) 123-4567"].
  split; [vm_compute; reflexivity |].
  split; [right; left |]. split; [left |].
  split; [vm_compute; reflexivity |]. split; [vm_compute; reflexivity |].
  vm_compute. left.
Qed.

(** C8, amended.  When the helpers return, the record has no e-mail
    twice and holds exactly the e-mails of the pages read; it has no phone
    string twice and holds exactly the normalized forms of the phones of
    the pages read, two raw phones with the same ten or eleven digits
    having the same normalized form; and for each platform it holds the
    handle of the first page, main page first, that reported one. *)
Theorem analyze_record_invariant
    (requests_get : string → result (Z * string))
    (find_contact_pages : string → string → result (list string))
    (analyze_contact_page : string → result page_info)
    (links : string → list string) (report : string → page_info) (url : string) :
  url ≠ EmptyString →
  (∀ text, find_contact_pages url text = Ok (links text)) →
  (∀ link, analyze_contact_page link = Ok (report link)) →
  ∃ es ps sm,
    analyze_website requests_get find_contact_pages analyze_contact_page (Some url)
      = to_dict {| emails := es; phone_numbers := ps; social_media := sm |}
    ∧ NoDup es
    ∧ (∀ e, e ∈ es ↔
         ∃ pg, pg ∈ pages_seen requests_get links report url ∧ e ∈ page_emails_of pg)
    ∧ NoDup ps
    ∧ (∀ p, p ∈ ps ↔
         ∃ pg raw, pg ∈ pages_seen requests_get links report url
                   ∧ raw ∈ page_phones_of pg ∧ p = _format_phone_number raw)
    ∧ (∀ raw1 raw2,
         digits raw1 = digits raw2 →
         String.length (digits raw1) = 10 ∨ String.length (digits raw1) = 11 →
         _format_phone_number raw1 = _format_phone_number raw2)
    ∧ (∀ platform,
         sm !! platform
         = first_reported platform
             (page_social_of <$> pages_seen requests_get links report url)).
Proof.
  intros Hne Hfind Hok. unfold pages_seen.
  destruct (_make_request requests_get url) as [text|] eqn:Hreq.
  - rewrite (analyze_website_completes _ _ _ url text (links text) report) by done.
    set (infos := report <$> take 3 (links text)).
    exists (EmailExtractor.list_set (emails (gathered text infos))),
      (EmailExtractor.list_set (map _format_phone_number (phone_numbers (gathered text infos)))),
      (social_media (gathered text infos)).
    split; [reflexivity |].
    split; [apply list_set_NoDup |].
    split; [intros e; rewrite elem_of_list_set; apply gathered_emails |].
    split; [apply list_set_NoDup |].
    split; [| split; [apply same_digits_same_form | apply gathered_social]].
    intros p. rewrite elem_of_list_set, list_elem_of_In, in_map_iff. split.
    + intros (raw & <- & Hraw). apply list_elem_of_In, gathered_phones in Hraw as (pg & ? & ?).
      eauto.
    + intros (pg & raw & Hpg & Hraw & ->). exists raw. split; [done |].
      apply list_elem_of_In, gathered_phones. eauto.
  - rewrite analyze_website_main_page_fails by done.
    eexists _, _, _. split; [reflexivity |].
    split; [constructor |]. split.
    { intros e. split; [intros H | intros (pg & H & _)]; by apply elem_of_nil in H. }
    split; [constructor |]. split.
    { intros p. split; [intros H | intros (pg & raw & H & _)]; by apply elem_of_nil in H. }
    split; [apply same_digits_same_form | done].
Qed.

Lemma analyze_record_invariant_witness :
  ∃ es ps sm,
    analyze Example.acme_get Example.acme_find (Some "https://acme.com")
      = to_dict {| emails := es; phone_numbers := ps; social_media := sm |}
    ∧ NoDup es ∧ "jobs@acme.com" ∈ es
    ∧ NoDup ps ∧ "(555) 123-4567" ∈ ps
    ∧ sm !! "twitter" = Some "acme" ∧ sm !! "facebook" = Some "acme".
Proof.
  destruct (analyze_record_invariant Example.acme_get Example.acme_find
              (_analyze_contact_page Example.acme_get) Example.acme_links
              (page_report Example.acme_get) "https://acme.com")
    as (es & ps & sm & Heq & Hes & Hin_es & Hps & Hin_ps & _ & Hsm).
  - discriminate.
  - reflexivity.
  - apply analyze_contact_page_report.
  - exists es, ps, sm. split; [exact Heq |]. split; [exact Hes |].
    split.
    { apply Hin_es. exists (page_report Example.acme_get "https://acme.com/contact").
      split; vm_compute; [right; right; left | right; left]. }
    split; [exact Hps |]. split.
    { apply Hin_ps. exists (page_report Example.acme_get "https://acme.com/contact"), "555.123.4567".
      split; [vm_compute; right; right; left |].
      split; vm_compute; [right; left | reflexivity]. }
    rewrite !Hsm. split; vm_compute; reflexivity.
Defined.

(** C9, as stated, fails: a response with status 203, which is a 2xx
    status, gives no page body, and the address in its text is not
    extracted. *)
Lemma status_203_is_no_content :
  Example.proxy_get "https://acme.org" = Ok (203%Z, "Mail sales@acme.org")
  ∧ (200 ≤ 203 < 300)%Z
  ∧ _make_request Example.proxy_get "https://acme.org" = None
  ∧ _extract_emails "Mail sales@acme.org" = ["sales@acme.org"]
  ∧ analyze Example.proxy_get Example.no_links (Some "https://acme.org")
    = to_dict {| emails := []; phone_numbers := []; social_media := ∅ |}.
Proof.
  split; [reflexivity |]. split; [lia |]. split; [reflexivity |].
  split; vm_compute; reflexivity.
Qed.

(** C9, amended.  A fetch gives the page body exactly when the response
    has status 200; every other status and every exception raised by the
    request give no content.  A contact page that cannot be fetched
    reports nothing, the loop goes on with the next link and the dict is as
    it was; no page of the loop raises, and what the dict holds before the
    loop it holds after it; what the main page reported is in the
    record. *)
Theorem failed_fetch_is_no_content (requests_get : string → result (Z * string)) :
  (∀ url text,
     _make_request requests_get url = Some text ↔ requests_get url = Ok (200%Z, text))
  ∧ (∀ link rest ci,
       _make_request requests_get link = None →
       _analyze_contact_page requests_get link = Ok no_page_info
       ∧ contact_loop (_analyze_contact_page requests_get) (link :: rest) ci
         = contact_loop (_analyze_contact_page requests_get) rest ci)
  ∧ (∀ links ci,
       ∃ ci', contact_loop (_analyze_contact_page requests_get) links ci = (Ok (), ci')
              ∧ emails ci `prefix_of` emails ci'
              ∧ phone_numbers ci `prefix_of` phone_numbers ci'
              ∧ social_media ci ⊆ social_media ci')
  ∧ (∀ find_contact_pages url text links,
       url ≠ EmptyString →
       _make_request requests_get url = Some text →
       find_contact_pages url text = Ok links →
       ∃ es ps sm,
         analyze requests_get find_contact_pages (Some url)
           = to_dict {| emails := es; phone_numbers := ps; social_media := sm |}
         ∧ (∀ e, e ∈ _extract_emails text → e ∈ es)
         ∧ (∀ p, p ∈ _extract_phone_numbers text → _format_phone_number p ∈ ps)
         ∧ _extract_social_media text ⊆ sm).
Proof.
  split; [apply make_request_Some |]. split; [| split].
  - intros link rest ci Hreq.
    assert (_analyze_contact_page requests_get link = Ok no_page_info) as Hpage.
    { unfold _analyze_contact_page. by rewrite Hreq. }
    split; [done |]. simpl. by rewrite Hpage, add_no_page_info.
  - intros links ci. eexists. split.
    { apply (contact_loop_total _ (page_report requests_get)).
      intros link _. apply analyze_contact_page_report. }
    split; [rewrite add_pages_emails; by eexists |].
    split; [rewrite add_pages_phones; by eexists |].
    apply map_subseteq_spec. intros platform h Hh.
    by rewrite add_pages_social, Hh.
  - intros find_contact_pages url text links Hne Hreq Hfind. unfold analyze.
    rewrite (analyze_website_completes _ _ _ url text links (page_report requests_get));
      [| done | done | done | intros link _; apply analyze_contact_page_report].
    set (infos := page_report requests_get <$> take 3 links).
    exists (EmailExtractor.list_set (emails (gathered text infos))),
      (EmailExtractor.list_set (map _format_phone_number (phone_numbers (gathered text infos)))),
      (social_media (gathered text infos)).
    split; [reflexivity |]. split; [| split].
    + intros e He. apply elem_of_list_set, gathered_emails.
      exists (main_page_info text). split; [left | done].
    + intros p Hp. apply elem_of_list_set, list_elem_of_In, in_map, list_elem_of_In.
      apply gathered_phones. exists (main_page_info text). split; [left | done].
    + apply map_subseteq_spec. intros platform h Hh.
      rewrite gathered_social. simpl.
      change (page_social_of (main_page_info text)) with (_extract_social_media text).
      by rewrite Hh.
Qed.

Lemma failed_fetch_is_no_content_witness :
  contact_loop (_analyze_contact_page Example.acme_get)
    ["https://acme.com/about"; "https://acme.com/contact"]
    {| emails := ["sales@acme.com"]; phone_numbers := []; social_media := ∅ |}
  = contact_loop (_analyze_contact_page Example.acme_get)
      ["https://acme.com/contact"]
      {| emails := ["sales@acme.com"]; phone_numbers := []; social_media := ∅ |}.
Proof.
  apply (proj1 (proj2 (failed_fetch_is_no_content Example.acme_get))).
  vm_compute; reflexivity.
Defined.

(** C10. Without a URL ([None] or the empty string) the analysis returns
    the empty dict; with any other URL it returns a dict with exactly the
    keys emails, phone_numbers and social_media, whatever the requests and
    the helpers do, and when the main page cannot be fetched the three
    fields are empty. *)
Theorem analyze_empty_or_three_fields
    (requests_get : string → result (Z * string))
    (find_contact_pages : string → string → result (list string))
    (analyze_contact_page : string → result page_info) :
  analyze_website requests_get find_contact_pages analyze_contact_page None = ∅
  ∧ analyze_website requests_get find_contact_pages analyze_contact_page
      (Some EmptyString) = ∅
  ∧ (∀ url, url ≠ EmptyString →
       (∃ es ps sm,
          analyze_website requests_get find_contact_pages analyze_contact_page (Some url)
          = <["emails" := VList es]>
              (<["phone_numbers" := VList ps]> (<["social_media" := VDict sm]> ∅)))
       ∧ dom (analyze_website requests_get find_contact_pages analyze_contact_page (Some url))
         = ({["emails"; "phone_numbers"; "social_media"]} : gset string))
  ∧ (∀ url, url ≠ EmptyString →
       (∀ u, _make_request requests_get u = None) →
       analyze_website requests_get find_contact_pages analyze_contact_page (Some url)
       = <["emails" := VList []]>
           (<["phone_numbers" := VList []]> (<["social_media" := VDict ∅]> ∅))).
Proof.
  split; [done |]. split; [done |]. split.
  - intros url Hne.
    destruct (analyze_website_returns_dict requests_get find_contact_pages
                analyze_contact_page url Hne) as ([es ps sm] & ->).
    split; [by exists es, ps, sm | apply dom_to_dict].
  - intros url Hne Hfail. by rewrite analyze_website_main_page_fails.
Qed.

Lemma analyze_empty_or_three_fields_witness :
  dom (analyze Example.acme_get Example.acme_find (Some "https://acme.com/team"))
  = ({["emails"; "phone_numbers"; "social_media"]} : gset string).
Proof.
  apply (proj1 (proj2 (proj2 (analyze_empty_or_three_fields Example.acme_get
           Example.acme_find (_analyze_contact_page Example.acme_get))))).
  discriminate.
Defined.

End CrawlClaims.

(** ** No exception leaves the core *)

Section NeverRaises.

Import EmailExtractor WebsiteAnalyzer Spec.

Lemma detect_nothing_parsed emails :
  (∀ e, e ∈ emails → parse_email e = None) → detect_email_pattern emails = Ok None.
Proof.
  intros Hnone. destruct (detect_cases emails) as [[-> _]|(c & _ & _ & Hsz & _)]; [done |].
  exfalso. assert (domains_of emails = ∅) as Hempty.
  { apply elem_of_equiv_empty_L. intros d (e & u & He & Hp)%elem_of_domains_of.
    rewrite (Hnone e He) in Hp. discriminate. }
  rewrite Hempty, size_empty in Hsz. discriminate.
Qed.

Lemma detect_mixed emails : mixed_domains emails → detect_email_pattern emails = Ok None.
Proof.
  intros (e1 & e2 & u1 & d1 & u2 & d2 & H1 & H2 & Hp1 & Hp2 & Hne).
  destruct (detect_cases emails) as [[-> _]|(c & _ & _ & Hsz & _)]; [done |].
  exfalso. apply Hne. apply (size_singleton_inv (domains_of emails)); [done | |];
    apply elem_of_domains_of; eauto.
Qed.

(** C1. The detector returns, for every list of strings, [None] or the
    name of a category, and [None] when no string of the list has exactly
    one at sign or when the addresses have several domains; the
    synthesizer returns for all arguments, with [None] when the name has
    fewer than two tokens or the website has no host; and the analysis
    returns the empty dict or the dict it has built, whatever the requests
    and the helpers raise. *)
Theorem core_never_raises :
  (∀ emails,
     ∃ r, detect_email_pattern emails = Ok r
          ∧ (r = None ∨ ∃ c, r = Some (pattern_name c)))
  ∧ (∀ emails,
       (∀ e, e ∈ emails → parse_email e = None) ∨ mixed_domains emails →
       detect_email_pattern emails = Ok None)
  ∧ (∀ name company website known,
       ∃ r, generate_likely_email name company website known = Ok r)
  ∧ (∀ name company website known,
       length (name_tokens name) < 2 ∨ website_domain website = None →
       generate_likely_email name company website known = Ok None)
  ∧ (∀ requests_get find_contact_pages analyze_contact_page website_url,
       analyze_website requests_get find_contact_pages analyze_contact_page website_url = ∅
       ∨ ∃ ci, analyze_website requests_get find_contact_pages analyze_contact_page
                 website_url = to_dict ci).
Proof.
  split; [apply detect_returns |]. split; [| split; [| split]].
  - intros emails [H|H]; [by apply detect_nothing_parsed | by apply detect_mixed].
  - apply generate_returns.
  - intros name company website known [H|H];
      [by apply generate_one_token | by apply generate_no_domain].
  - intros requests_get find_contact_pages analyze_contact_page [url|]; [| by left].
    destruct (decide (url = EmptyString)) as [->|Hne]; [by left |].
    right. by apply analyze_website_returns_dict.
Qed.

Lemma core_never_raises_witness :
  detect_email_pattern ["no at sign"; "two@at@signs"; "x"] = Ok None
  ∧ generate_likely_email "Cher" "Acme" "https://acme.com" (Some ["a@x.com"; "b@y.com"])
    = Ok None.
Proof.
  destruct core_never_raises as (_ & Hdetect & _ & Hgenerate & _). split.
  - apply Hdetect. left. intros e He.
    repeat (apply elem_of_cons in He as [->|He]; [vm_compute; reflexivity |]).
    by apply elem_of_nil in He.
  - apply Hgenerate. left. vm_compute. lia.
Defined.

End NeverRaises.

(** ** The embedding on concrete inputs *)

Section Examples.

Import EmailExtractor WebsiteAnalyzer.

(** Two categories with two votes each: the one seen first is returned. *)
Example detect_tie :
  detect_email_pattern ["jdoe@x.com"; "a.b@x.com"; "c.d@x.com"; "smith@x.com"]
  = Ok (Some "firstinitiallast").
Proof. vm_compute; reflexivity. Qed.

Example detect_skips_malformed :
  detect_email_pattern ["a_b@x.com"; "not an address"; "c_d@x.com"; "e@f@y.org"]
  = Ok (Some "first_last").
Proof. vm_compute; reflexivity. Qed.

Example classify_examples :
  map classify ["j.doe"; "j_doe"; "jd"; "jdoe"; "JDoe"; "jdoe7"]
  = ["first.last"; "first_last"; "initials"; "firstinitiallast"; "unknown"; "unknown"].
Proof. vm_compute; reflexivity. Qed.

Example generate_without_scheme :
  generate_likely_email "Jane Doe" "Acme" "acme.com"
    (Some ["j.s@acme.com"; "k.l@acme.com"]) = Ok None.
Proof. vm_compute; reflexivity. Qed.

Example generate_middle_name :
  generate_likely_email "Jane Quinn DOE" "Acme" "https://www.acme.com/about"
    (Some ["jsmith@acme.com"; "klee@acme.com"]) = Ok (Some "jdoe@acme.com").
Proof. vm_compute; reflexivity. Qed.

Example findall_emails :
  Re.findall email_pattern "Write to a.b@c.de, or x+y@mail.example.org."
  = ["a.b@c.de"; "x+y@mail.example.org"].
Proof. vm_compute; reflexivity. Qed.

(** The country code gives back a digit when the local number needs it. *)
Example phone_backtracking :
  _extract_phone_numbers "+445551234567 and (555) 123-4567 and 12345"
  = ["+445551234567"; "(555) 123-4567"].
Proof. vm_compute; reflexivity. Qed.

Example social_handles :
  let found := _extract_social_media
    "https://www.linkedin.com/company/acme/ https://x.com/acme?lang=en twitter.com/other" in
  found !! "linkedin" = Some "acme" ∧ found !! "twitter" = Some "acme"
  ∧ found !! "facebook" = None.
Proof. vm_compute. done. Qed.

End Examples.

(** * Further properties *)

(** ** What the extractors return *)

Section ExtractShape.

Import Re Sem WebsiteAnalyzer Spec.

Lemma has_char_app x (s t : string) :
  Str.has_char x (s ++ t) = Str.has_char x s || Str.has_char x t.
Proof.
  induction s as [|c s IH]; [done |]. rewrite append_cons. cbn [Str.has_char].
  by rewrite IH, orb_assoc.
Qed.

Lemma all_chars_has_char p x s :
  Str.all_chars p s = true → p x = false → Str.has_char x s = false.
Proof.
  intros Hs Hx. induction s as [|c s IH]; [done |].
  simpl in Hs. apply andb_true_iff in Hs as [Hc Hs]. cbn [Str.has_char].
  rewrite (IH Hs), orb_false_r. apply Ascii.eqb_neq. intros ->. congruence.
Qed.

Lemma all_chars_app p (s t : string) :
  Str.all_chars p (s ++ t) = Str.all_chars p s && Str.all_chars p t.
Proof.
  induction s as [|c s IH]; [done |]. rewrite append_cons. simpl.
  by rewrite IH, andb_assoc.
Qed.

(** The shape of a match of the e-mail pattern. *)
Lemma email_pattern_shape e :
  lang email_pattern e →
  ∃ local_part host tld,
    e = local_part ++ "@" ++ host ++ "." ++ tld
    ∧ Str.all_chars EmailExtractor.local_char local_part = true
    ∧ 1 ≤ String.length local_part
    ∧ Str.all_chars EmailExtractor.domain_char host = true
    ∧ 1 ≤ String.length host
    ∧ Str.all_chars Str.is_alpha tld = true
    ∧ 2 ≤ String.length tld.
Proof.
  intros (l & ? & -> & (Hl & Hl1 & _) & (? & ? & -> & -> &
           (h & ? & -> & (Hh & Hh1 & _) & (? & t & -> & -> & (Ht & Ht2 & _))))).
  by exists l, h, t.
Qed.

Lemma email_pattern_parse e :
  lang email_pattern e →
  ∃ local_part domain,
    parse_email e = Some (local_part, domain)
    ∧ e = local_part ++ "@" ++ domain
    ∧ local_part ≠ EmptyString
    ∧ Str.has_char "." domain = true.
Proof.
  intros (l & h & t & -> & Hl & Hl1 & Hh & _ & Ht & _)%email_pattern_shape.
  exists l, (h ++ "." ++ t). split; [| split; [done | split]].
  - apply parse_email_join.
    + by apply (all_chars_has_char _ _ _ Hl).
    + rewrite !has_char_app.
      rewrite (all_chars_has_char _ "@" _ Hh), (all_chars_has_char _ "@" _ Ht); done.
  - intros ->. simpl in Hl1. lia.
  - rewrite !has_char_app. cbn. by rewrite orb_true_r.
Qed.

Lemma extract_emails_in_findall text email :
  email ∈ _extract_emails text → email ∈ findall email_pattern text.
Proof.
  unfold _extract_emails. destruct (String.eqb text EmptyString).
  - intros H. by apply elem_of_nil in H.
  - rewrite list_elem_of_In, filter_In, <- list_elem_of_In. by intros [H _].
Qed.

Lemma extract_emails_from_text_in_findall text email :
  email ∈ EmailExtractor.extract_emails_from_text text →
  email ∈ findall email_pattern text.
Proof.
  unfold EmailExtractor.extract_emails_from_text.
  destruct (String.eqb text EmptyString).
  - intros H. by apply elem_of_nil in H.
  - by rewrite elem_of_list_set.
Qed.

(** X1. Every address returned by [_extract_emails] or by
    [extract_emails_from_text] occurs in the text and has exactly one at
    sign, with a non-empty local part before it and a domain with a dot
    after it: it is one of the addresses [detect_email_pattern] counts. *)
Theorem extracted_emails_well_formed (text email : string) :
  email ∈ _extract_emails text ∨ email ∈ EmailExtractor.extract_emails_from_text text →
  substring_of email text
  ∧ ∃ local_part domain,
      parse_email email = Some (local_part, domain)
      ∧ email = local_part ++ "@" ++ domain
      ∧ local_part ≠ EmptyString
      ∧ Str.has_char "." domain = true.
Proof.
  intros H.
  assert (email ∈ findall email_pattern text) as Hin.
  { destruct H as [H|H];
      [by apply extract_emails_in_findall | by apply extract_emails_from_text_in_findall]. }
  apply findall_sound in Hin as [Hl Hsub].
  split; [done | by apply email_pattern_parse].
Qed.

Lemma extracted_emails_well_formed_witness :
  substring_of "sales@acme.org" "Write to sales@acme.org today"
  ∧ ∃ local_part domain,
      parse_email "sales@acme.org" = Some (local_part, domain)
      ∧ "sales@acme.org" = local_part ++ "@" ++ domain
      ∧ local_part ≠ EmptyString
      ∧ Str.has_char "." domain = true.
Proof.
  apply (extracted_emails_well_formed "Write to sales@acme.org today").
  left. vm_compute. left.
Defined.

Lemma phone_sep_not_digit c : phone_sep c = true → Str.is_digit c = false.
Proof. destruct c as [[] [] [] [] [] [] [] []]; vm_compute; congruence. Qed.

Lemma digits_of_digits m : Str.all_chars Str.is_digit m = true → digits m = m.
Proof. apply str_filter_id. Qed.

Lemma digits_of_others p m :
  (∀ c, p c = true → Str.is_digit c = false) →
  Str.all_chars p m = true → digits m = EmptyString.
Proof.
  intros Hp. unfold digits. induction m as [|c m IH]; [done |]. simpl.
  intros [Hc Hm]%andb_true_iff. rewrite (Hp c Hc). by apply IH.
Qed.

Lemma digits_app (s t : string) : digits (s ++ t) = digits s ++ digits t.
Proof. apply str_filter_app. Qed.

Lemma is_char_not_digit x c :
  Str.is_digit x = false → Str.is_char x c = true → Str.is_digit c = false.
Proof. unfold Str.is_char. by intros Hx ->%Ascii.eqb_eq. Qed.

(** The local number has ten digits. *)
Lemma phone_local_digits m :
  lang phone_local m → String.length (digits m) = 10.
Proof.
  intros (m1 & ? & -> & (H1 & _) & (m2 & ? & -> & (H2 & L2 & U2) &
           (m3 & ? & -> & (H3 & _) & (m4 & ? & -> & (H4 & _) &
           (m5 & ? & -> & (H5 & L5 & U5) & (m6 & m7 & -> & (H6 & _) & (H7 & L7 & U7))))))).
  rewrite !digits_app, !str_length_app.
  rewrite (digits_of_others _ m1 (fun c => is_char_not_digit "("%char c eq_refl) H1).
  rewrite (digits_of_others _ m3 (fun c => is_char_not_digit ")"%char c eq_refl) H3).
  rewrite (digits_of_others _ m4 phone_sep_not_digit H4).
  rewrite (digits_of_others _ m6 phone_sep_not_digit H6).
  rewrite (digits_of_digits m2 H2), (digits_of_digits m5 H5), (digits_of_digits m7 H7).
  simpl. lia.
Qed.

(** The country code is a plus sign and one to three digits. *)
Lemma phone_country_digits m :
  lang phone_country m →
  Str.strip_prefix "+" m ≠ None ∧ 1 ≤ String.length (digits m) ≤ 3.
Proof.
  intros (? & ? & -> & -> & (m2 & m3 & -> & (H2 & L2 & U2) & (H3 & _))).
  split; [done |].
  rewrite !digits_app, !str_length_app.
  rewrite (digits_of_others _ m3 phone_sep_not_digit H3), (digits_of_digits m2 H2).
  simpl. lia.
Qed.

Lemma match_opt_pair_sound g1 g2 s a b n :
  match_opt_pair g1 g2 s = Some ((a, b), n) →
  (a = EmptyString ∨ lang g1 a) ∧ lang g2 b ∧ ∃ rest, s = a ++ b ++ rest.
Proof.
  unfold match_opt_pair.
  destruct (bt g1 s _) as [x|] eqn:H1.
  - intros [= ->].
    apply bt_sound in H1 as (m1 & ? & -> & Hm1 & (m2 & rest & -> & Hm2 & [= <- <- _])%bt_sound).
    rewrite !consumed_app. eauto 6.
  - intros (m2 & rest & -> & Hm2 & [= <- <- _])%bt_sound.
    rewrite consumed_app. eauto 6.
Qed.

(** X2. Every phone returned by [_extract_phone_numbers] occurs in the
    text and is an optional country code (a plus sign and one to three
    digits) followed by a local number of exactly ten digits; it has
    between ten and thirteen digits. *)
Theorem extracted_phones_shape (text phone : string) :
  phone ∈ _extract_phone_numbers text →
  substring_of phone text
  ∧ 10 ≤ String.length (digits phone) ≤ 13
  ∧ ∃ country local_number,
      phone = country ++ local_number
      ∧ String.length (digits local_number) = 10
      ∧ (country = EmptyString
         ∨ (Str.strip_prefix "+" country ≠ None
            ∧ 1 ≤ String.length (digits country) ≤ 3)).
Proof.
  unfold _extract_phone_numbers. destruct (String.eqb text EmptyString).
  { intros H. by apply elem_of_nil in H. }
  rewrite list_elem_of_In, in_map_iff.
  intros ([a b] & <- & Hin). apply list_elem_of_In in Hin.
  unfold findall_opt_pair in Hin.
  apply scan_elem in Hin as (pre & s' & n & -> & Hm).
  apply match_opt_pair_sound in Hm as (Ha & Hb & rest & ->).
  apply phone_local_digits in Hb. simpl.
  split; [exists pre, rest; by rewrite append_assoc |].
  assert (a = EmptyString ∨ Str.strip_prefix "+" a ≠ None
                             ∧ 1 ≤ String.length (digits a) ≤ 3) as Hc.
  { destruct Ha as [?|?%phone_country_digits]; auto. }
  split; [| by exists a, b].
  rewrite digits_app, str_length_app, Hb.
  destruct Hc as [->|[_ ?]]; simpl; lia.
Qed.

Lemma extracted_phones_shape_witness :
  substring_of "+44 555-123-4567" "Call +44 555-123-4567 now"
  ∧ 10 ≤ String.length (digits "+44 555-123-4567") ≤ 13
  ∧ ∃ country local_number,
      "+44 555-123-4567" = country ++ local_number
      ∧ String.length (digits local_number) = 10
      ∧ (country = EmptyString
         ∨ (Str.strip_prefix "+" country ≠ None
            ∧ 1 ≤ String.length (digits country) ≤ 3)).
Proof.
  apply (extracted_phones_shape "Call +44 555-123-4567 now").
  vm_compute. left.
Defined.

End ExtractShape.

(** ** Normalized phones and the paths of the analysis *)

Section AnalysisPaths.

Import WebsiteAnalyzer Spec.

(** X3. Normalizing a phone never changes its digits: the normalized form
    has the same digit sequence as the raw string, for every string. *)
Theorem format_phone_keeps_digits (phone : string) :
  digits (_format_phone_number phone) = digits phone.
Proof.
  pose proof (str_filter_all_chars Str.is_digit phone) as Hall. fold (digits phone) in Hall.
  destruct (decide (String.length (digits phone) = 10)) as [H10|H10].
  - apply string_of_length in H10 as (l & Hl & Hd).
    do 11 (destruct l as [|? l]; try discriminate Hl). rewrite Hd in Hall.
    rewrite (format_ten _ _ _ _ _ _ _ _ _ _ _ Hd), Hd. by apply digits_ten_form.
  - destruct (decide (String.length (digits phone) = 11)) as [H11|H11].
    + apply string_of_length in H11 as (l & Hl & Hd).
      do 12 (destruct l as [|? l]; try discriminate Hl). rewrite Hd in Hall.
      rewrite (format_eleven _ _ _ _ _ _ _ _ _ _ _ _ Hd), Hd. by apply digits_eleven_form.
    + by rewrite format_other.
Qed.

Lemma to_dict_lookup ci :
  to_dict ci !! "emails" = Some (VList (emails ci))
  ∧ to_dict ci !! "phone_numbers" = Some (VList (phone_numbers ci))
  ∧ to_dict ci !! "social_media" = Some (VDict (social_media ci)).
Proof.
  unfold to_dict. split; [| split]; reflexivity.
Qed.

Section Params.

Variable requests_get : string → result (Z * string).


(** X4. When the analysis ends normally, every phone of the record is
    its own normalized form: the phone field is closed under
    [_format_phone_number]. *)
Theorem analysis_phones_are_normalized
    (find_contact_pages : string → string → result (list string))
    (analyze_contact_page : string → result page_info)
    (links : string → list string) (report : string → page_info)
    (url : string) (phones : list string) :
  (∀ text, find_contact_pages url text = Ok (links text)) →
  (∀ link, analyze_contact_page link = Ok (report link)) →
  analyze_website requests_get find_contact_pages analyze_contact_page (Some url)
    !! "phone_numbers" = Some (VList phones) →
  ∀ phone, phone ∈ phones → _format_phone_number phone = phone.
Proof.
  intros Hfind Hok Hlook phone Hin.
  destruct (decide (url = EmptyString)) as [->|Hne]; [done |].
  destruct (_make_request requests_get url) as [text|] eqn:Hreq.
  - rewrite (analyze_website_completes _ _ _ url text (links text) report) in Hlook by done.
    rewrite (proj1 (proj2 (to_dict_lookup _))) in Hlook. injection Hlook as <-.
    apply elem_of_list_set, list_elem_of_In, in_map_iff in Hin as (raw & <- & _).
    apply format_phone_idempotent.
  - rewrite analyze_website_main_page_fails in Hlook by done.
    rewrite (proj1 (proj2 (to_dict_lookup _))) in Hlook. injection Hlook as <-.
    by apply elem_of_nil in Hin.
Qed.


Lemma contact_loop_ext helper helper' links ci :
  (∀ link, link ∈ links → helper link = helper' link) →
  contact_loop helper links ci = contact_loop helper' links ci.
Proof.
  revert ci. induction links as [|link links IH]; intros ci Heq; [done |].
  simpl. rewrite <- Heq by left. destruct (helper link); [| done].
  apply IH. intros l Hl. apply Heq. by right.
Qed.

(** X6. The analysis reads at most three contact pages: two runs whose
    link lists agree on the first three links, and whose helpers agree on
    these links, return the same record, whatever the later links are and
    whatever the helpers would do on other links. *)
Theorem analysis_reads_three_links
    (find_contact_pages find_contact_pages' : string → string → result (list string))
    (analyze_contact_page analyze_contact_page' : string → result page_info)
    (url : string) :
  (∀ text,
     match find_contact_pages url text, find_contact_pages' url text with
     | Ok contact_links, Ok contact_links' =>
         take 3 contact_links = take 3 contact_links'
         ∧ ∀ link, link ∈ take 3 contact_links →
                   analyze_contact_page link = analyze_contact_page' link
     | Raise _, Raise _ => True
     | _, _ => False
     end) →
  analyze_website requests_get find_contact_pages analyze_contact_page (Some url)
  = analyze_website requests_get find_contact_pages' analyze_contact_page' (Some url).
Proof.
  intros Hagree. unfold analyze_website, try_body.
  destruct (String.eqb url EmptyString); [done |].
  destruct (_make_request requests_get url) as [text|]; [| done].
  specialize (Hagree text).
  destruct (find_contact_pages url text) as [l|e], (find_contact_pages' url text) as [l'|e'];
    try done.
  destruct Hagree as [<- Hh]. by rewrite (contact_loop_ext _ analyze_contact_page').
Qed.

End Params.

End AnalysisPaths.

Lemma analysis_phones_are_normalized_witness :
  WebsiteAnalyzer._format_phone_number "(555) 123-4567" = "(555) 123-4567".
Proof.
  apply (analysis_phones_are_normalized Example.acme_get Example.acme_find
           (WebsiteAnalyzer._analyze_contact_page Example.acme_get) Example.acme_links
           (Spec.page_report Example.acme_get) "https://acme.com"
           ["+44-555-123-4567"; "+44 5551234567"; "(555) 123-4567"]).
  - reflexivity.
  - apply analyze_contact_page_report.
  - vm_compute; reflexivity.
  - right. right. left.
Defined.


Lemma analysis_reads_three_links_witness :
  WebsiteAnalyzer.analyze_website Example.acme_get Example.acme_find
    (WebsiteAnalyzer._analyze_contact_page Example.acme_get) (Some "https://acme.com")
  = WebsiteAnalyzer.analyze_website Example.acme_get
      (fun _ _ => Ok ["https://acme.com/about"; "https://acme.com/contact";
                      "https://acme.com/team"])
      (fun link => if String.eqb link "https://acme.com/support"
                   then Raise (OtherError "never called")
                   else WebsiteAnalyzer._analyze_contact_page Example.acme_get link)
      (Some "https://acme.com").
Proof.
  apply analysis_reads_three_links. intros text. split; [reflexivity |].
  intros link Hl.
  repeat (apply elem_of_cons in Hl as [->|Hl]; [reflexivity |]).
  by apply elem_of_nil in Hl.
Defined.


(** ** More on the detector *)

Section DetectMore.

Import EmailExtractor Spec.

Lemma before_not_both {A : Type} (c c' : A) (ps : list A) :
  c ≠ c' → before c c' ps → before c' c ps → False.
Proof.
  intros Hne (pre & post & -> & Hnin) (pre' & post' & Heq & Hnin').
  destruct (decide (length pre < length pre')) as [Hlt|Hge].
  - apply Hnin'. apply (list_elem_of_lookup_2 _ (length pre)).
    rewrite <- (lookup_app_l pre' (c' :: post')) by done.
    rewrite <- Heq, lookup_app_r, Nat.sub_diag by lia. done.
  - destruct (decide (length pre' < length pre)) as [Hlt|Hge'].
    + apply Hnin. apply (list_elem_of_lookup_2 _ (length pre')).
      rewrite <- (lookup_app_l pre (c :: post)) by done.
      rewrite Heq, lookup_app_r, Nat.sub_diag by lia. done.
    + assert (length pre = length pre') as Hlen by lia.
      apply Hne.
      assert ((pre ++ c :: post)%list !! length pre = Some c) as H1
        by (by rewrite lookup_app_r, Nat.sub_diag by lia).
      rewrite Heq, Hlen, lookup_app_r, Nat.sub_diag in H1 by lia.
      by injection H1.
Qed.

(** There is one winner. *)
Lemma wins_unique {A : Type} `{EqDecision A} (c c' : A) (ps : list A) :
  wins c ps → wins c' ps → c = c'.
Proof.
  intros (_ & Hmax & Htie) (_ & Hmax' & Htie').
  destruct (decide (c = c')) as [|Hne]; [done |]. exfalso.
  assert (votes c ps = votes c' ps) as Hv.
  { pose proof (Hmax c'). pose proof (Hmax' c). lia. }
  apply (before_not_both c c' ps Hne); [apply Htie | apply Htie']; congruence.
Qed.

Lemma detect_shared_domain emails locals domain :
  2 ≤ length emails →
  Forall2 (fun e u => parse_email e = Some (u, domain)) emails locals →
  ∃ c, detect_email_pattern emails = Ok (Some (pattern_name c))
       ∧ wins c (category <$> locals).
Proof.
  intros Hlen Hall.
  pose proof (parsed_shared _ _ _ Hall) as Hp.
  assert (usernames_of emails = locals) as Hu.
  { unfold usernames_of. rewrite Hp, <- list_fmap_compose. apply list_fmap_id. }
  destruct (detect_cases emails) as [[_ [?|Hsz]]|(c & Hdet & _ & _ & Hwin)]; [lia | |].
  - exfalso. apply Hsz. unfold domains_of. rewrite Hp, <- list_fmap_compose.
    destruct Hall as [|e u emails locals He Hall]; [simpl in Hlen; lia |].
    assert (list_to_set ((snd ∘ (fun u => (u, domain))) <$> u :: locals)
            = ({[domain]} : gset string)) as ->.
    { clear. induction locals as [|u' locals IH]; simpl in *; set_solver. }
    apply size_singleton.
  - rewrite Hu in Hwin.
    assert (∃ p, c = pattern_name p) as [p ->].
    { destruct Hwin as [Hin _]. apply list_elem_of_fmap in Hin as (u & -> & _).
      rewrite classify_category. eauto. }
    exists p. split; [done |].
    apply (wins_fmap pattern_name); [apply pattern_name_inj |].
    rewrite <- list_fmap_compose.
    erewrite list_fmap_ext; [exact Hwin |].
    intros _ u _. simpl. by rewrite classify_category.
Qed.

(** X7. On two or more addresses sharing one domain the detector returns
    a category exactly when that category wins the vote: the winner of the
    vote is unique, so the result is fully determined by the categories of
    the local parts in their order. *)
Theorem detect_returns_iff_wins (emails locals : list string) (domain : string)
    (c : EmailPattern) :
  2 ≤ length emails →
  Forall2 (fun e u => parse_email e = Some (u, domain)) emails locals →
  detect_email_pattern emails = Ok (Some (pattern_name c))
  ↔ wins c (category <$> locals).
Proof.
  intros Hlen Hall.
  destruct (detect_shared_domain emails locals domain Hlen Hall) as (c0 & Hdet & Hwin).
  rewrite Hdet. split.
  - intros [= Heq]. by apply pattern_name_inj in Heq as ->.
  - intros Hc. by rewrite (wins_unique c c0 _ Hc Hwin).
Qed.

Lemma detect_returns_iff_wins_witness :
  detect_email_pattern ["j_doe@x.com"; "ab@x.com"; "k_lee@x.com"]
    = Ok (Some (pattern_name FirstUnderscoreLast))
  ↔ wins FirstUnderscoreLast (category <$> ["j_doe"; "ab"; "k_lee"]).
Proof.
  apply (detect_returns_iff_wins ["j_doe@x.com"; "ab@x.com"; "k_lee@x.com"]
           ["j_doe"; "ab"; "k_lee"] "x.com").
  - simpl; lia.
  - repeat constructor.
Defined.

(** X8. A category with strictly more votes than every other category is
    the one returned. *)
Theorem detect_strict_plurality (emails locals : list string) (domain : string)
    (c : EmailPattern) :
  2 ≤ length emails →
  Forall2 (fun e u => parse_email e = Some (u, domain)) emails locals →
  (∀ c', c' ≠ c → votes c' (category <$> locals) < votes c (category <$> locals)) →
  detect_email_pattern emails = Ok (Some (pattern_name c)).
Proof.
  intros Hlen Hall Hmore.
  destruct (detect_shared_domain emails locals domain Hlen Hall)
    as (c0 & Hdet & _ & Hmax & _).
  destruct (decide (c0 = c)) as [->|Hne]; [done |].
  specialize (Hmore c0 Hne). specialize (Hmax c). lia.
Qed.

Lemma detect_strict_plurality_witness :
  detect_email_pattern ["ab@x.com"; "j.doe@x.com"; "k.lee@x.com"]
  = Ok (Some (pattern_name FirstDotLast)).
Proof.
  apply (detect_strict_plurality ["ab@x.com"; "j.doe@x.com"; "k.lee@x.com"]
           ["ab"; "j.doe"; "k.lee"] "x.com").
  - simpl; lia.
  - repeat constructor.
  - intros [] Hne; vm_compute; (lia || done).
Defined.

(** The detector as a function of the length of the list, the set of
    domains and the list of local parts. *)
Lemma detect_unfold emails :
  detect_email_pattern emails =
    if length emails <? 2 then Ok None
    else if negb (size (domains_of emails) =? 1) then Ok None
    else
      most_common ← py_max_by_count
                      (fold_left count_pattern (map classify (usernames_of emails)) []);
      Ok (Some most_common.1).
Proof.
  unfold detect_email_pattern.
  destruct (length emails <? 2); [done |].
  rewrite collect_fold, (right_id_L ∅ (∪)). simpl.
  fold (domains_of emails) (usernames_of emails).
  destruct (Nat.eqb_spec (size (domains_of emails)) 1) as [Hsz|]; [| done]. simpl.
  unfold size, set_size in Hsz. simpl in Hsz.
  by destruct (elements (domains_of emails)) as [|x [|? ?]].
Qed.

(** X9. Strings that are not addresses (no at sign, or several) are
    skipped but count towards the minimum of two: two lists of at least
    two strings with the same well-formed addresses give the same result. *)
Theorem detect_skips_malformed_strings (emails emails' : list string) :
  2 ≤ length emails → 2 ≤ length emails' →
  parsed emails = parsed emails' →
  detect_email_pattern emails = detect_email_pattern emails'.
Proof.
  intros Hlen Hlen' Hp. rewrite !detect_unfold.
  destruct (Nat.ltb_spec (length emails) 2); [lia |].
  destruct (Nat.ltb_spec (length emails') 2); [lia |].
  unfold domains_of, usernames_of. by rewrite Hp.
Qed.

Lemma detect_skips_malformed_strings_witness :
  detect_email_pattern ["a.b@x.com"; "c.d@x.com"]
  = detect_email_pattern ["n/a"; "a.b@x.com"; "see@web@site"; "c.d@x.com"; "none"].
Proof.
  apply detect_skips_malformed_strings; [simpl; lia | simpl; lia |].
  vm_compute; reflexivity.
Defined.

(** X10. The minimum of two is a minimum of strings, not of addresses: a
    single address next to a string that is not an address gets its own
    category as the detected pattern, while alone it gets [None]. *)
Theorem detect_single_address_with_junk (email junk username domain : string) :
  parse_email email = Some (username, domain) →
  parse_email junk = None →
  detect_email_pattern [email; junk] = Ok (Some (classify username))
  ∧ detect_email_pattern [junk; email] = Ok (Some (classify username))
  ∧ detect_email_pattern [email] = Ok None.
Proof.
  intros He Hj.
  assert (∀ l, parsed l = [(username, domain)] → 2 ≤ length l →
               detect_email_pattern l = Ok (Some (classify username))) as H.
  { intros l Hp Hlen. rewrite detect_unfold.
    destruct (Nat.ltb_spec (length l) 2); [lia |].
    assert (domains_of l = {[domain]}) as ->.
    { unfold domains_of. rewrite Hp. simpl. apply (right_id_L ∅ (∪)). }
    assert (usernames_of l = [username]) as -> by (unfold usernames_of; by rewrite Hp).
    by rewrite size_singleton. }
  split; [| split].
  - apply H; [| simpl; lia]. unfold parsed. simpl. by rewrite He, Hj.
  - apply H; [| simpl; lia]. unfold parsed. simpl. by rewrite He, Hj.
  - done.
Qed.

Lemma detect_single_address_with_junk_witness :
  detect_email_pattern ["j.doe@acme.com"; "unknown"] = Ok (Some "first.last")
  ∧ detect_email_pattern ["unknown"; "j.doe@acme.com"] = Ok (Some "first.last")
  ∧ detect_email_pattern ["j.doe@acme.com"] = Ok None.
Proof.
  apply (detect_single_address_with_junk "j.doe@acme.com" "unknown" "j.doe" "acme.com");
    reflexivity.
Defined.

End DetectMore.

(** ** More on the synthesizer *)

Section GenerateMore.

Import Re Sem EmailExtractor Spec Spec2.

Lemma lower_char_not_upper c : Str.is_upper (Str.lower_char c) = false.
Proof. destruct c as [[] [] [] [] [] [] [] []]; vm_compute; reflexivity. Qed.

Lemma lower_char_space c : Str.is_space (Str.lower_char c) = Str.is_space c.
Proof. destruct c as [[] [] [] [] [] [] [] []]; vm_compute; reflexivity. Qed.

Lemma lower_no_upper s : Str.all_chars (fun c => negb (Str.is_upper c)) (Str.lower s) = true.
Proof.
  induction s as [|c s IH]; [done |]. simpl. by rewrite lower_char_not_upper, IH.
Qed.

(** The tokens of [split] are non-empty, free of whitespace, and keep any
    property of the characters of the string. *)
Lemma split_ws_from_tokens p tok s t :
  Str.all_chars p s = true → Str.all_chars p tok = true →
  Str.all_chars (fun c => negb (Str.is_space c)) tok = true →
  t ∈ Str.split_ws_from tok s →
  t ≠ EmptyString ∧ Str.all_chars p t = true
  ∧ Str.all_chars (fun c => negb (Str.is_space c)) t = true.
Proof.
  revert tok. induction s as [|c s IH]; intros tok Hs Htok Hsp; simpl.
  - destruct tok; [intros H; by apply elem_of_nil in H |].
    intros ->%list_elem_of_singleton. done.
  - simpl in Hs. apply andb_true_iff in Hs as [Hc Hs].
    destruct (Str.is_space c) eqn:Hspc.
    + destruct tok as [|c0 tok].
      * by apply IH.
      * intros [->|H]%elem_of_cons; [done |]. by apply (IH EmptyString).
    + apply IH; [done | |]; rewrite all_chars_app; simpl.
      * by rewrite Htok, Hc.
      * by rewrite Hsp, Hspc.
Qed.

Lemma name_tokens_plain name t :
  t ∈ name_tokens name → t ≠ EmptyString ∧ Str.all_chars plain_char t = true.
Proof.
  intros Hin.
  destruct (split_ws_from_tokens (fun c => negb (Str.is_upper c)) EmptyString
              (Str.lower name) t (lower_no_upper name) eq_refl eq_refl Hin)
    as (Hne & Hup & Hsp).
  split; [done |]. clear -Hup Hsp. unfold plain_char.
  induction t as [|c t IH]; [done |]. simpl in *.
  apply andb_true_iff in Hup as [-> Hup]. apply andb_true_iff in Hsp as [-> Hsp].
  by rewrite IH.
Qed.

Lemma initial_all_chars p t :
  Str.all_chars p t = true → Str.all_chars p (Str.initial t) = true.
Proof. destruct t as [|c t]; [done |]. simpl. intros [-> _]%andb_true_iff. done. Qed.

Lemma match_group_sound pre grp s g n :
  match_group pre grp s = Some (g, n) → lang grp g ∧ substring_of g s.
Proof.
  unfold match_group.
  intros (m1 & r1 & -> & _ & (m2 & r2 & -> & Hg & [= <- _])%bt_sound)%bt_sound.
  rewrite consumed_app. split; [done |]. by exists m1, r2.
Qed.

Lemma search_group_sound pre grp s g :
  search_group pre grp s = Some g → lang grp g ∧ substring_of g s.
Proof.
  induction s as [|c s IH]; simpl.
  - destruct (match_group pre grp EmptyString) as [[g' n]|] eqn:Hm; [| done].
    intros [= ->]. by apply match_group_sound in Hm.
  - destruct (match_group pre grp (String c s)) as [[g' n]|] eqn:Hm.
    + intros [= ->]. by apply match_group_sound in Hm.
    + intros (Hg & pre' & suf & ->)%IH. split; [done |]. by exists (String c pre'), suf.
Qed.

(** The host read from a website is a non-empty piece of the URL without
    a slash. *)
Lemma website_domain_shape website domain :
  website_domain website = Some domain →
  domain ≠ EmptyString ∧ Str.has_char "/" domain = false ∧ substring_of domain website.
Proof.
  intros ((Hall & Hlen & _) & Hsub)%search_group_sound. split; [| split; [| done]].
  - intros ->. simpl in Hlen. lia.
  - by apply (all_chars_has_char _ _ _ Hall).
Qed.

Lemma head_elem {A : Type} (l : list A) x : head l = Some x → x ∈ l.
Proof. destruct l; [done |]. intros [= ->]. left. Qed.

Lemma last_elem {A : Type} (l : list A) x : last l = Some x → x ∈ l.
Proof.
  rewrite last_lookup. apply list_elem_of_lookup_2.
Qed.

(** X11. An address returned by the synthesizer is a local part, an at
    sign and the host read from the website; the local part is non-empty
    and has neither whitespace nor a capital letter A to Z, the host is a
    non-empty piece of the website URL without a slash. *)
Theorem generated_address_shape (name company website : string)
    (known : option (list string)) (email : string) :
  generate_likely_email name company website known = Ok (Some email) →
  ∃ local_part domain,
    email = local_part ++ "@" ++ domain
    ∧ local_part ≠ EmptyString
    ∧ Str.all_chars plain_char local_part = true
    ∧ website_domain website = Some domain
    ∧ domain ≠ EmptyString
    ∧ Str.has_char "/" domain = false
    ∧ substring_of domain website.
Proof.
  intros Hgen.
  destruct (website_domain website) as [domain|] eqn:Hdom;
    [| by rewrite generate_no_domain in Hgen].
  destruct (Nat.ltb_spec (length (name_tokens name)) 2) as [Hlen|Hlen];
    [by rewrite generate_one_token in Hgen |].
  destruct (name_tokens name) as [|t ts] eqn:Htok; [simpl in Hlen; lia |].
  destruct (last (t :: ts)) as [t'|] eqn:Hlast;
    [| apply last_None in Hlast; discriminate].
  rewrite (generate_with_tokens name company website known (t :: ts) t t' domain)
    in Hgen by done.
  assert (t ∈ name_tokens name) as Ht by (rewrite Htok; left).
  assert (t' ∈ name_tokens name) as Ht' by (rewrite Htok; by apply last_elem).
  apply name_tokens_plain in Ht as [Hne Hp], Ht' as [Hne' Hp'].
  pose proof (initial_all_chars _ _ Hp) as Hi.
  pose proof (initial_all_chars _ _ Hp') as Hi'.
  destruct (website_domain_shape _ _ Hdom) as (Hd1 & Hd2 & Hd3).
  match goal with |- ?G =>
    assert (∀ a sep b,
              a = t ∨ a = Str.initial t → b = t' ∨ b = Str.initial t' →
              Str.all_chars plain_char sep = true →
              email = a ++ sep ++ b ++ "@" ++ domain → G) as Hform
  end.
  { intros a sep b Ha Hb Hsep ->. exists (a ++ sep ++ b), domain.
    split; [by rewrite !append_assoc |]. split.
    { destruct t; [done |]. by destruct Ha as [-> | ->]. }
    split; [| done].
    rewrite !all_chars_app, Hsep.
    by destruct Ha as [-> | ->], Hb as [-> | ->]; rewrite ?Hp, ?Hp', ?Hi, ?Hi'. }
  match goal with |- ?G =>
    assert (Ok (Some (fallback t t' domain)) = Ok (Some email) → G) as Hfb
  end.
  { intros [= <-]. apply (Hform t "." t'); auto. }
  destruct known as [[|e es]|]; [by apply Hfb | | by apply Hfb].
  destruct (detect_email_pattern (e :: es)) as [[p|]|?]; [| by apply Hfb | done].
  destruct (String.eqb p EmptyString); [by apply Hfb |].
  unfold render in Hgen.
  repeat (destruct (String.eqb p _); [injection Hgen as <- |]).
  - apply (Hform t "." t'); auto.
  - apply (Hform t "_" t'); auto.
  - apply (Hform (Str.initial t) EmptyString (Str.initial t')); auto.
  - apply (Hform (Str.initial t) EmptyString t'); auto.
  - by apply Hfb.
Qed.

Lemma generated_address_shape_witness :
  ∃ local_part domain,
    "jdoe@acme.com" = local_part ++ "@" ++ domain
    ∧ local_part ≠ EmptyString
    ∧ Str.all_chars plain_char local_part = true
    ∧ website_domain "https://www.acme.com/about" = Some domain
    ∧ domain ≠ EmptyString
    ∧ Str.has_char "/" domain = false
    ∧ substring_of domain "https://www.acme.com/about".
Proof.
  apply (generated_address_shape "Jane Quinn DOE" "Acme" "https://www.acme.com/about"
           (Some ["jsmith@acme.com"; "klee@acme.com"])).
  vm_compute; reflexivity.
Defined.

(** X12. The synthesizer reads the first and the last token of the name
    and the host of the website and nothing else: middle names, the case of
    the name, the company name and the rest of the URL do not change the
    result. *)
Theorem generate_reads_first_last_host
    (name name' company company' website website' : string)
    (known : option (list string)) (first_name last_name domain : string) :
  2 ≤ length (name_tokens name) → 2 ≤ length (name_tokens name') →
  head (name_tokens name) = Some first_name → head (name_tokens name') = Some first_name →
  last (name_tokens name) = Some last_name → last (name_tokens name') = Some last_name →
  website_domain website = Some domain → website_domain website' = Some domain →
  generate_likely_email name company website known
  = generate_likely_email name' company' website' known.
Proof.
  intros Hl Hl' Hh Hh' Hla Hla' Hd Hd'.
  rewrite (generate_with_tokens name company website known _ first_name last_name domain
             eq_refl Hl Hh Hla Hd).
  by rewrite (generate_with_tokens name' company' website' known _ first_name last_name
                domain eq_refl Hl' Hh' Hla' Hd').
Qed.

Lemma generate_reads_first_last_host_witness :
  generate_likely_email "Jane Doe" "Acme" "https://acme.com" (Some ["a_b@acme.com"; "c_d@acme.com"])
  = generate_likely_email "JANE van der DOE" "Acme Inc." "http://www.acme.com/team?x=1"
      (Some ["a_b@acme.com"; "c_d@acme.com"]).
Proof.
  apply (generate_reads_first_last_host _ _ _ _ _ _ _ "jane" "doe" "acme.com");
    vm_compute; (reflexivity || lia).
Defined.

End GenerateMore.

(** ** Synthesis and detection together *)

Section RoundTrip.

Import Re Sem EmailExtractor Spec Spec2.

Lemma lower_not_mark x s :
  Str.is_lower x = false → Str.all_chars Str.is_lower s = true → Str.has_char x s = false.
Proof. intros Hx Hs. by apply (all_chars_has_char _ _ _ Hs). Qed.

Lemma category_local_part p first_name last_name :
  lower_word first_name → lower_word last_name → 2 ≤ String.length last_name →
  p ≠ Unknown →
  category (local_part_of p first_name last_name) = p
  ∧ Str.has_char "@" (local_part_of p first_name last_name) = false.
Proof.
  intros [Hf Hfne] [Hl Hlne] Hlen Hp.
  destruct first_name as [|cf f]; [done |]. destruct last_name as [|cl l]; [done |].
  pose proof Hf as Hf'. pose proof Hl as Hl'.
  simpl in Hf', Hl'. apply andb_true_iff in Hf' as [Hcf Hf'].
  apply andb_true_iff in Hl' as [Hcl Hl'].
  assert (∀ x, Str.is_lower x = false →
               Str.has_char x (String cf f) = false ∧ Str.has_char x (String cl l) = false
               ∧ Str.has_char x (String cf EmptyString) = false
               ∧ Str.has_char x (String cl EmptyString) = false) as Hno.
  { intros x Hx. repeat split; apply (lower_not_mark x); try done; simpl;
      by rewrite ?Hcf, ?Hcl. }
  destruct (Hno "."%char eq_refl) as (D1 & D2 & D3 & D4).
  destruct (Hno "_"%char eq_refl) as (U1 & U2 & U3 & U4).
  destruct (Hno "@"%char eq_refl) as (A1 & A2 & A3 & A4).
  destruct p; try done; unfold category, local_part_of; cbn [Str.initial].
  - rewrite !has_char_app, A1, A2. split; [| done].
    by rewrite D1, D2.
  - rewrite !has_char_app, A1, A2, D1, D2, U1, U2. split; [| done].
    cbn. by rewrite ?orb_true_r.
  - rewrite !has_char_app, A3, A4, D3, D4, U3, U4. done.
  - rewrite !has_char_app, A3, A2, D3, D2, U3, U2. split; [| done].
    change (String cf EmptyString ++ String cl l) with (String cf (String cl l)).
    destruct l as [|c2 l]; [simpl in Hlen; lia |]. cbn [orb String.length Nat.leb].
    assert (matches initial_last_pattern (String cf (String cl (String c2 l))) = true) as ->.
    { apply initial_last_pattern_spec. eexists. split; [| split; [| by left]].
      - simpl. by rewrite Hcf.
      - simpl. lia. }
    done.
Qed.

Lemma template_local_part p first_name last_name domain :
  p ≠ Unknown →
  template p first_name last_name domain
  = Some (local_part_of p first_name last_name ++ "@" ++ domain).
Proof. intros Hp. destruct p; try done; simpl; by rewrite ?append_assoc. Qed.

(** X13. Addresses synthesized with a pattern are detected as that
    pattern: for two people whose first and last names are words of the
    letters a to z (the last names of two letters or more) and a domain
    without at sign, the detector returns, on the two addresses rendered
    with a concrete pattern, that pattern. *)
Theorem synthesized_addresses_detected (p : EmailPattern)
    (first1 last1 first2 last2 domain email1 email2 : string) :
  lower_word first1 → lower_word last1 → 2 ≤ String.length last1 →
  lower_word first2 → lower_word last2 → 2 ≤ String.length last2 →
  Str.has_char "@" domain = false →
  template p first1 last1 domain = Some email1 →
  template p first2 last2 domain = Some email2 →
  detect_email_pattern [email1; email2] = Ok (Some (pattern_name p)).
Proof.
  intros Hf1 Hl1 Hn1 Hf2 Hl2 Hn2 Hd H1 H2.
  assert (p ≠ Unknown) as Hp by (by intros ->).
  rewrite template_local_part in H1, H2 by done.
  injection H1 as <-. injection H2 as <-.
  destruct (category_local_part p first1 last1 Hf1 Hl1 Hn1 Hp) as [Hc1 Ha1].
  destruct (category_local_part p first2 last2 Hf2 Hl2 Hn2 Hp) as [Hc2 Ha2].
  destruct (detect_shared_domain
              [local_part_of p first1 last1 ++ "@" ++ domain;
               local_part_of p first2 last2 ++ "@" ++ domain]
              [local_part_of p first1 last1; local_part_of p first2 last2] domain)
    as (c & -> & Hin & _).
  - simpl; lia.
  - repeat constructor; by apply parse_email_join.
  - simpl in Hin. rewrite Hc1, Hc2 in Hin.
    by repeat (apply elem_of_cons in Hin as [->|Hin]; [done |]); apply elem_of_nil in Hin.
Qed.

Lemma synthesized_addresses_detected_witness :
  detect_email_pattern ["jdoe@acme.com"; "klee@acme.com"]
  = Ok (Some (pattern_name FirstInitialLast)).
Proof.
  apply (synthesized_addresses_detected FirstInitialLast "jane" "doe" "kim" "lee" "acme.com");
    try done; simpl; lia.
Defined.

Lemma strip_prefix_app_None p host path :
  Str.strip_prefix p host = None → Str.has_char "/" p = false → path_like path →
  Str.strip_prefix p (host ++ path) = None.
Proof.
  revert host. induction p as [|a p IH]; intros host; [by destruct host |].
  cbn [Str.has_char]. intros Hs [Ha Hp]%orb_false_iff Hpath.
  destruct host as [|b host].
  - change (EmptyString ++ path) with path.
    destruct Hpath as [->|[rest ->]]; [done |]. simpl.
    rewrite Ascii.eqb_sym. by rewrite Ha.
  - rewrite append_cons. simpl in *. destruct (Ascii.eqb a b); [by apply IH | done].
Qed.

Lemma path_like_not_host path c r :
  path_like path → path = String c r → negb (Str.is_char "/" c) = false.
Proof. intros [->|[rest ->]]; [done |]. by intros [= <- _]. Qed.

Lemma no_slash_all host :
  Str.has_char "/" host = false →
  Str.all_chars (fun c => negb (Str.is_char "/" c)) host = true.
Proof.
  induction host as [|c host IH]; [done |]. cbn [Str.has_char].
  intros [Hc Hh]%orb_false_iff.
  change (negb (Str.is_char "/" c)
          && Str.all_chars (fun c => negb (Str.is_char "/" c)) host = true).
  unfold Str.is_char at 1. by rewrite Hc, IH.
Qed.

(** The group matches the whole host when a path or nothing follows. *)
Lemma host_match {B : Type} host path (k : string → option B) b :
  host ≠ EmptyString → Str.has_char "/" host = false → path_like path →
  k path = Some b →
  bt website_host (host ++ path) k = Some b.
Proof.
  intros Hne Hh Hpath Hk. unfold website_host. cbn [bt].
  rewrite (run_length_all _ host path (no_slash_all _ Hh) (fun c r => path_like_not_host path c r Hpath)).
  destruct host as [|c host]; [done |]. cbn [String.length Nat.ltb Nat.leb].
  apply give_back_first.
  replace (1 + (S (String.length host) - 1)) with (String.length (String c host))
    by (simpl; lia).
  by rewrite str_drop_app_length.
Qed.

Lemma search_group_here pre grp s g n :
  match_group pre grp s = Some (g, n) → search_group pre grp s = Some g.
Proof. intros H. destruct s; simpl; by rewrite H. Qed.

Lemma scheme_match {B : Type} scheme rest (K2 : string → option B) b :
  scheme = "http://" ∨ scheme = "https://" →
  K2 rest = Some b →
  bt (Lit "http") (scheme ++ rest)
    (fun r1 => bt (Cls (Str.is_char "s") 0 (Some 1)) r1
       (fun r2 => bt (Lit "://") r2 K2)) = Some b.
Proof.
  intros [-> | ->] H; cbn [bt].
  - change ("http://" ++ rest) with ("http" ++ "://" ++ rest).
    rewrite strip_prefix_app.
    change ("://" ++ rest) with (String ":" (String "/" (String "/" rest))).
    simpl. by rewrite H.
  - change ("https://" ++ rest) with ("http" ++ "s://" ++ rest).
    rewrite strip_prefix_app.
    change ("s://" ++ rest) with (String "s" (String ":" (String "/" (String "/" rest)))).
    simpl. by rewrite H.
Qed.

Lemma prefix_match {B : Type} scheme rest (K : string → option B) b :
  scheme = "http://" ∨ scheme = "https://" →
  bt (Opt (Lit "www.")) rest K = Some b →
  bt website_prefix (scheme ++ rest) K = Some b.
Proof.
  intros Hs H.
  exact (scheme_match scheme rest (fun r3 => bt (Opt (Lit "www.")) r3 K) b Hs H).
Qed.

(** X14. For a URL made of the scheme http or https, an optional www.,
    a non-empty host without slash and then nothing or a path, the host
    read by the synthesizer is that host, without the www. prefix. *)
Theorem website_domain_of_url (scheme rest host path : string) :
  scheme = "http://" ∨ scheme = "https://" →
  host ≠ EmptyString → Str.has_char "/" host = false → path_like path →
  (rest = host ++ path ∧ Str.strip_prefix "www." host = None)
  ∨ rest = "www." ++ host ++ path →
  website_domain (scheme ++ rest) = Some host.
Proof.
  intros Hscheme Hne Hh Hpath Hrest. unfold website_domain.
  apply (search_group_here _ _ _ _
           (String.length (scheme ++ rest) - String.length path)).
  unfold match_group. apply prefix_match; [done |]. cbn [bt].
  assert (bt website_host (host ++ path)
            (fun r2 => Some (consumed (host ++ path) r2,
                             String.length (scheme ++ rest) - String.length r2))
          = Some (host, String.length (scheme ++ rest) - String.length path)) as Hhost.
  { apply host_match; try done. by rewrite consumed_app. }
  destruct Hrest as [[-> Hnw] | ->].
  - by rewrite (strip_prefix_app_None "www." host path Hnw eq_refl Hpath).
  - rewrite strip_prefix_app. by rewrite Hhost.
Qed.

Lemma website_domain_of_url_witness :
  website_domain ("https://" ++ "www." ++ "acme.co.uk" ++ "/about/team") = Some "acme.co.uk"
  ∧ website_domain ("http://" ++ "acme.com:8080" ++ EmptyString) = Some "acme.com:8080".
Proof.
  split.
  - apply (website_domain_of_url "https://" _ "acme.co.uk" "/about/team");
      [by right | done | done | right; by eexists | by right].
  - apply (website_domain_of_url "http://" _ "acme.com:8080" EmptyString);
      [by left | done | done | by left | by left].
Defined.

End RoundTrip.

(** ** The first address of a text *)

Section FirstEmail.

Import Sem EmailExtractor EmailExtractorMore Spec.

(** X15. [extract_email_from_text] returns [None] exactly when the text
    has no match of the e-mail pattern, and otherwise one of the matches. *)
Theorem first_email_none_iff_no_match (text : string) :
  (extract_email_from_text text = None ↔ Re.findall email_pattern text = [])
  ∧ (∀ email, extract_email_from_text text = Some email →
       email ∈ Re.findall email_pattern text ∧ substring_of email text).
Proof.
  unfold extract_email_from_text. split.
  - rewrite head_None. unfold extract_emails_from_text.
    destruct (String.eqb_spec text EmptyString) as [->|_]; [done |].
    unfold list_set. split.
    + intros H. apply elements_empty_inv in H.
      destruct (Re.findall email_pattern text) as [|e es]; [done |].
      exfalso. apply leibniz_equiv in H.
      assert (e ∈ (∅ : gset string)) as Hin by (rewrite <- H; set_solver).
      by apply not_elem_of_empty in Hin.
    + intros ->. simpl. apply elements_empty.
  - intros email Hh. apply head_elem in Hh.
    apply extract_emails_from_text_in_findall in Hh.
    split; [done | by apply findall_sound in Hh as [_ ?]].
Qed.

Lemma first_email_none_iff_no_match_witness :
  "sales@acme.org" ∈ Re.findall email_pattern "Mail: sales@acme.org"
  ∧ substring_of "sales@acme.org" "Mail: sales@acme.org".
Proof.
  apply (proj2 (first_email_none_iff_no_match "Mail: sales@acme.org")).
  vm_compute; reflexivity.
Defined.

End FirstEmail.

(** ** The scraper *)

Section ScraperProps.

Import Sem Spec LinkedInLeadScraper.

Lemma replace_space_no_space new s :
  Str.has_char " " new = false → Str.has_char " " (replace_space new s) = false.
Proof.
  intros Hnew. induction s as [|c s IH]; [done |]. simpl.
  destruct (Ascii.eqb_spec c " ") as [->|Hne].
  - by rewrite has_char_app, Hnew, IH.
  - cbn [Str.has_char]. rewrite IH, orb_false_r. apply Ascii.eqb_neq. congruence.
Qed.

Lemma replace_space_id new s :
  Str.has_char " " s = false → replace_space new s = s.
Proof.
  induction s as [|c s IH]; [done |]. cbn [Str.has_char replace_space].
  intros [Hc Hs]%orb_false_iff. rewrite Ascii.eqb_sym, Hc. by rewrite IH.
Qed.

Lemma add_filter_no_space key value url :
  Str.has_char " " key = false → Str.has_char " " url = false →
  Str.has_char " " (add_filter key value url) = false.
Proof.
  intros Hk Hu. unfold add_filter. destruct (truthy value); [| done].
  rewrite !has_char_app, Hu, Hk, replace_space_no_space; done.
Qed.

Lemma add_filter_extends key value url : ∃ tail, add_filter key value url = url ++ tail.
Proof.
  unfold add_filter. destruct (truthy value); [by eexists |].
  exists EmptyString. by rewrite append_empty_r.
Qed.

(** X16. The search URL has no space, whatever the keywords and the
    filters are; it starts with the address of the people search followed
    by the keywords with each space written %20, and keywords without a
    space are inserted as they are. *)
Theorem search_url_has_no_space (keywords : string)
    (location industry company_size : option string) :
  Str.has_char " " (search_url keywords location industry company_size) = false
  ∧ (∃ filters,
       search_url keywords location industry company_size
       = "https://www.linkedin.com/search/results/people/?keywords="
         ++ replace_space "%20" keywords ++ filters)
  ∧ (Str.has_char " " keywords = false → replace_space "%20" keywords = keywords).
Proof.
  split; [| split; [| apply replace_space_id]].
  - unfold search_url. repeat apply add_filter_no_space; try done.
    by rewrite has_char_app, replace_space_no_space.
  - unfold search_url.
    destruct (add_filter_extends "companySize" company_size
                (add_filter "industry" industry
                   (add_filter "location" location
                      ("https://www.linkedin.com/search/results/people/?keywords="
                       ++ replace_space "%20" keywords)))) as [t3 ->].
    destruct (add_filter_extends "industry" industry
                (add_filter "location" location
                   ("https://www.linkedin.com/search/results/people/?keywords="
                    ++ replace_space "%20" keywords))) as [t2 ->].
    destruct (add_filter_extends "location" location
                ("https://www.linkedin.com/search/results/people/?keywords="
                 ++ replace_space "%20" keywords)) as [t1 ->].
    exists (t1 ++ t2 ++ t3). by rewrite !append_assoc.
Qed.

Lemma search_url_has_no_space_witness :
  replace_space "%20" "CTO,startup" = "CTO,startup".
Proof.
  apply (proj2 (proj2 (search_url_has_no_space "CTO,startup" None None None))).
  reflexivity.
Defined.

Lemma split_on_head sep s p ps :
  Str.split_on sep s = p :: ps →
  Str.has_char sep p = false ∧ (s = p ∨ ∃ t, s = p ++ String sep t).
Proof.
  revert p ps. induction s as [|c s IH]; intros p ps; cbn [Str.split_on].
  - intros [= <- <-]. by split; [| left].
  - destruct (Ascii.eqb_spec c sep) as [->|Hne].
    + intros [= <- _]. split; [done |]. right. by exists s.
    + destruct (Str.split_on sep s) as [|q qs] eqn:Hs.
      * destruct (split_on_cons sep s) as (? & ? & ?). congruence.
      * intros [= <- <-]. destruct (IH q qs eq_refl) as [Hq Hform].
        split.
        -- cbn [Str.has_char]. rewrite Hq, orb_false_r. apply Ascii.eqb_neq. congruence.
        -- destruct Hform as [->|[t ->]]; [by left |]. right. by exists t.
Qed.

Lemma collect_profile_urls_elem elements url :
  url ∈ collect_profile_urls elements →
  ∃ href, Ok (Some href) ∈ elements
          ∧ Str.contains "/in/" href = true
          ∧ Str.has_char "?" url = false
          ∧ (href = url ∨ ∃ query, href = url ++ String "?" query).
Proof.
  induction elements as [|element rest IH]; cbn [collect_profile_urls].
  - intros H. by apply elem_of_nil in H.
  - assert (url ∈ collect_profile_urls rest →
            ∃ href, Ok (Some href) ∈ element :: rest
                    ∧ Str.contains "/in/" href = true
                    ∧ Str.has_char "?" url = false
                    ∧ (href = url ∨ ∃ query, href = url ++ String "?" query)) as Hrest.
    { intros (href & Hin & H)%IH. exists href. split; [by right | done]. }
    destruct element as [[href|]|e]; [| apply Hrest | apply Hrest].
    destruct (truthy (Some href) && Str.contains "/in/" href) eqn:Hcond; [| apply Hrest].
    apply andb_true_iff in Hcond as [_ Hc].
    destruct (Str.split_on "?" href) as [|p ps] eqn:Hs; [apply Hrest |].
    intros [->|H]%elem_of_cons; [| by apply Hrest].
    destruct (split_on_head _ _ _ _ Hs) as [Hp Hform].
    exists href. split; [left | done].
Qed.

Lemma collect_profile_urls_length elements :
  length (collect_profile_urls elements) ≤ length elements.
Proof.
  induction elements as [|element rest IH]; simpl; [done |].
  destruct element as [[href|]|e]; try lia.
  destruct (_ && _); [| lia].
  destruct (Str.split_on "?" href); simpl; lia.
Qed.

Lemma slice_to_length {A : Type} (xs : list A) (stop : Z) :
  ((0 ≤ stop)%Z → (Z.of_nat (length (slice_to xs stop)) ≤ stop)%Z)
  ∧ ((stop < 0)%Z →
       (Z.of_nat (length (slice_to xs stop)) ≤ Z.max 0 (Z.of_nat (length xs) + stop))%Z).
Proof.
  unfold slice_to. destruct (Z.leb_spec 0 stop); rewrite length_take; lia.
Qed.

Lemma slice_to_lookup {A : Type} (xs : list A) (stop : Z) i x :
  slice_to xs stop !! i = Some x →
  xs !! i = Some x
  ∧ ((0 ≤ stop)%Z → (Z.of_nat i < stop)%Z)
  ∧ ((stop < 0)%Z → (Z.of_nat i < Z.of_nat (length xs) + stop)%Z).
Proof.
  unfold slice_to.
  destruct (Z.leb_spec 0 stop); intros [Hi Hlt]%lookup_take_Some;
    (split; [done |]); lia.
Qed.

(** X17. The loop of the search reads [profile_elements[:limit]].  With a
    limit that is not negative it returns at most [limit] URLs, taken from
    the first [limit] elements.  With a negative limit the slice leaves
    out the last [-limit] elements instead, so that up to
    [len(profile_elements) + limit] URLs are returned, which is more than
    [limit].  In both cases a returned URL has no question mark and is the
    part before the first question mark of the link of an element of the
    slice, a link that contains /in/. *)
Theorem profile_urls_bounded_and_clean
    (profile_elements : list (result (option string))) (limit : Z) :
  ((0 ≤ limit)%Z →
     (Z.of_nat (length (profile_urls profile_elements limit)) ≤ limit)%Z)
  ∧ ((limit < 0)%Z →
       (Z.of_nat (length (profile_urls profile_elements limit))
        ≤ Z.max 0 (Z.of_nat (length profile_elements) + limit))%Z)
  ∧ ∀ url, url ∈ profile_urls profile_elements limit →
      Str.has_char "?" url = false
      ∧ ∃ i href,
          profile_elements !! i = Some (Ok (Some href))
          ∧ ((0 ≤ limit)%Z → (Z.of_nat i < limit)%Z)
          ∧ ((limit < 0)%Z → (Z.of_nat i < Z.of_nat (length profile_elements) + limit)%Z)
          ∧ Str.contains "/in/" href = true
          ∧ (href = url ∨ ∃ query, href = url ++ String "?" query).
Proof.
  unfold profile_urls.
  pose proof (collect_profile_urls_length (slice_to profile_elements limit)) as Hlen.
  destruct (slice_to_length profile_elements limit) as [Hpos Hneg].
  split; [intros H; specialize (Hpos H); lia |].
  split; [intros H; specialize (Hneg H); lia |].
  intros url (href & Hin & Hc & Hq & Hform)%collect_profile_urls_elem.
  split; [done |].
  apply list_elem_of_lookup in Hin as [i Hi].
  apply slice_to_lookup in Hi as (Hi & Hp & Hn). by exists i, href.
Qed.

Lemma profile_urls_bounded_and_clean_witness :
  let profile_elements :=
    [Ok (Some "https://www.linkedin.com/in/jane-doe?trk=search");
     Ok (Some "https://www.linkedin.com/company/acme");
     Raise (OtherError "stale element");
     Ok (Some "https://www.linkedin.com/in/john-smith");
     Ok (Some "https://www.linkedin.com/in/mary-major")] in
  (Z.of_nat (length (profile_urls profile_elements 1)) ≤ 1)%Z
  ∧ (Z.of_nat (length (profile_urls profile_elements (-1)))
     ≤ Z.max 0 (Z.of_nat (length profile_elements) + -1))%Z
  ∧ profile_urls profile_elements (-1)
    = ["https://www.linkedin.com/in/jane-doe"; "https://www.linkedin.com/in/john-smith"].
Proof.
  intros profile_elements. split; [| split].
  - apply (proj1 (profile_urls_bounded_and_clean profile_elements 1)). lia.
  - apply (proj1 (proj2 (profile_urls_bounded_and_clean profile_elements (-1)))). lia.
  - vm_compute. reflexivity.
Defined.

End ScraperProps.

(** ** The leads *)

Section Leads.

Import Spec LinkedInLeadScraper.

Variable requests_get : string → result (Z * string).
Variable find_contact_pages : string → string → result (list string).
Variable analyze_contact_page : string → result WebsiteAnalyzer.page_info.
Variable search_linkedin :
  string → option string → option string → option string → Z → result (list string).
Variable extract_linkedin_profile : string → result profile.

Local Abbreviation merge := (merge_contact_info requests_get find_contact_pages analyze_contact_page).
Local Abbreviation site_emails_of pd :=
  (get_list (extract_contact_info_from_website requests_get find_contact_pages
               analyze_contact_page (company_website pd)) "emails").

Lemma py_index_head {A : Type} (l : list A) :
  l ≠ [] → ∃ x, head l = Some x ∧ py_index l 0 = Ok x.
Proof. destruct l as [|x l]; [done |]. intros _. by exists x. Qed.

Lemma merge_returns (pd : profile) :
  ∃ pd', merge pd = Ok pd' ∧ same_person pd pd'.
Proof.
  assert (∀ pd', same_person pd pd' →
            ∃ pd'', Ok pd' = Ok pd'' ∧ same_person pd pd'') as Hdone
    by (intros pd' ?; by exists pd').
  unfold merge_contact_info.
  destruct (truthy (company_website pd)); [| by apply Hdone].
  set (es := site_emails_of pd).
  destruct (truthy (email pd)) eqn:Hemail.
  - rewrite andb_false_r. cbn. rewrite Hemail. cbn. by apply Hdone.
  - rewrite andb_true_r. destruct (Nat.eqb_spec (length es) 0) as [Hlen|Hlen]; cbn.
    + rewrite Hemail. cbn.
      destruct (String.eqb (name pd) "Unknown"); cbn; [by apply Hdone |].
      destruct (generate_returns (name pd) (company pd)
                  (default EmptyString (company_website pd)) (Some es)) as [g ->]. cbn.
      destruct (truthy g); by apply Hdone.
    + destruct (py_index_head es) as (e & _ & ->); [by destruct es |]. cbn.
      destruct (_ && _); cbn; [| by apply Hdone].
      destruct (generate_returns (name pd) (company pd)
                  (default EmptyString (company_website pd)) (Some es)) as [g ->]. cbn.
      destruct (truthy g); by apply Hdone.
Qed.

(** X18. Merging the site data into a profile never raises; it leaves
    name, title, company, location, profile URL and website as they are,
    and a profile that has an e-mail keeps it and gets no confidence tag. *)
Theorem merge_keeps_profile (pd : profile) :
  ∃ pd', merge pd = Ok pd'
         ∧ same_person pd pd'
         ∧ (truthy (email pd) = true →
            email pd' = email pd ∧ email_confidence pd' = email_confidence pd).
Proof.
  assert (∀ pd', same_person pd pd' →
            (truthy (email pd) = true →
             email pd' = email pd ∧ email_confidence pd' = email_confidence pd) →
            ∃ pd'', Ok pd' = Ok pd'' ∧ same_person pd pd''
                    ∧ (truthy (email pd) = true →
                       email pd'' = email pd
                       ∧ email_confidence pd'' = email_confidence pd)) as Hdone
    by (intros pd' ? ?; by exists pd').
  unfold merge_contact_info.
  destruct (truthy (company_website pd)); [| by apply Hdone].
  set (es := site_emails_of pd).
  destruct (truthy (email pd)) eqn:Hemail.
  - rewrite andb_false_r. cbn. rewrite Hemail. cbn. by apply Hdone.
  - rewrite andb_true_r. destruct (Nat.eqb_spec (length es) 0) as [Hlen|Hlen]; cbn.
    + rewrite Hemail. cbn.
      destruct (String.eqb (name pd) "Unknown"); cbn; [by apply Hdone |].
      destruct (generate_returns (name pd) (company pd)
                  (default EmptyString (company_website pd)) (Some es)) as [g ->]. cbn.
      destruct (truthy g); by apply Hdone.
    + destruct (py_index_head es) as (e & _ & ->); [by destruct es |]. cbn.
      destruct (_ && _); cbn; [| by apply Hdone].
      destruct (generate_returns (name pd) (company pd)
                  (default EmptyString (company_website pd)) (Some es)) as [g ->]. cbn.
      destruct (truthy g); by apply Hdone.
Qed.

(** X19. A lead tagged Generated had no e-mail on its profile and its
    site gave no e-mail, so the synthesizer was called with an empty list
    of known e-mails, and the address is the first candidate,
    first.last@host (provided the site record holds no empty string as an
    e-mail, and the profile came without a tag). *)
Theorem generated_tag_means_first_candidate (pd pd' : profile) :
  merge pd = Ok pd' →
  email_confidence pd = None →
  email_confidence pd' = Some "Generated" →
  EmptyString ∉ site_emails_of pd →
  truthy (email pd) = false
  ∧ site_emails_of pd = []
  ∧ ∃ first_name last_name domain,
      head (name_tokens (name pd)) = Some first_name
      ∧ last (name_tokens (name pd)) = Some last_name
      ∧ website_domain (default EmptyString (company_website pd)) = Some domain
      ∧ email pd' = Some (first_name ++ "." ++ last_name ++ "@" ++ domain).
Proof.
  unfold merge_contact_info. intros Hm Hnone Htag Hnonempty.
  destruct (truthy (company_website pd)); [| injection Hm as <-; congruence].
  set (es := site_emails_of pd) in *.
  destruct (truthy (email pd)) eqn:Hemail.
  { rewrite andb_false_r in Hm. cbn in Hm. rewrite Hemail in Hm. cbn in Hm.
    injection Hm as <-. cbn in Htag. congruence. }
  rewrite andb_true_r in Hm.
  destruct (Nat.eqb_spec (length es) 0) as [Hlen|Hlen]; cbn in Hm.
  - rewrite Hemail in Hm. cbn in Hm.
    destruct (String.eqb (name pd) "Unknown"); cbn in Hm;
      [injection Hm as <-; cbn in Htag; congruence |].
    assert (es = []) as Hes by (by destruct es). rewrite Hes in Hm.
    split; [done |]. split; [done |].
    destruct (website_domain (default EmptyString (company_website pd)))
      as [domain|] eqn:Hdom;
      [| rewrite generate_no_domain in Hm by done; cbn in Hm;
         injection Hm as <-; cbn in Htag; congruence].
    destruct (Nat.ltb_spec (length (name_tokens (name pd))) 2) as [Hl|Hl];
      [rewrite generate_one_token in Hm by done; cbn in Hm;
       injection Hm as <-; cbn in Htag; congruence |].
    destruct (name_tokens (name pd)) as [|t ts] eqn:Htok; [simpl in Hl; lia |].
    destruct (last (t :: ts)) as [t'|] eqn:Hlast;
      [| apply last_None in Hlast; discriminate].
    rewrite (generate_with_tokens (name pd) (company pd) _ (Some []) (t :: ts) t t' domain)
      in Hm by done.
    cbn in Hm. destruct (fallback t t' domain) as [|c fb] eqn:Hfb;
      injection Hm as <-; cbn in Htag; [congruence |].
    exists t, t', domain. cbn. by rewrite <- Hfb, <- Hlast.
  - destruct (py_index_head es) as (e & He & Hidx); [by destruct es |].
    rewrite Hidx in Hm. cbn in Hm.
    assert (e ≠ EmptyString) as Hne.
    { intros ->. apply Hnonempty. by apply head_elem. }
    destruct e as [|c e]; [done |]. cbn in Hm.
    injection Hm as <-. cbn in Htag. congruence.
Qed.

(** X20. The leads are, in order, the merged profiles of exactly the
    profile URLs whose page could be read: a profile whose extraction
    raises is skipped, no other profile is lost, and [generate_leads]
    raises exactly when the search raises. *)
Theorem leads_are_the_loaded_profiles (profile_urls : list string) :
  Forall2 (fun pd lead => merge pd = Ok lead ∧ same_person pd lead)
    (omap (fun url => match extract_linkedin_profile url with
                      | Ok pd => Some pd
                      | Raise _ => None
                      end) profile_urls)
    (leads_loop requests_get find_contact_pages analyze_contact_page
       extract_linkedin_profile profile_urls)
  ∧ ∀ keywords location industry company_size limit,
      match search_linkedin keywords location industry company_size limit with
      | Ok urls =>
          generate_leads requests_get find_contact_pages analyze_contact_page
            search_linkedin extract_linkedin_profile
            keywords location industry company_size limit
          = Ok (leads_loop requests_get find_contact_pages analyze_contact_page
                  extract_linkedin_profile urls)
      | Raise e =>
          generate_leads requests_get find_contact_pages analyze_contact_page
            search_linkedin extract_linkedin_profile
            keywords location industry company_size limit
          = Raise e
      end.
Proof.
  split.
  - induction profile_urls as [|url urls IH]; [constructor |]. cbn.
    destruct (extract_linkedin_profile url) as [pd|e]; cbn; [| done].
    destruct (merge_returns pd) as (lead & Hm & Hsame).
    rewrite Hm. by constructor.
  - intros keywords location industry company_size limit. unfold generate_leads.
    by destruct (search_linkedin _ _ _ _ _).
Qed.

End Leads.

Lemma merge_keeps_profile_witness :
  ∃ pd', LinkedInLeadScraper.merge_contact_info Example.acme_get Example.acme_find
           (WebsiteAnalyzer._analyze_contact_page Example.acme_get) Example2.jane = Ok pd'
         ∧ LinkedInLeadScraper.email pd' = Some "jane@mail.org"
         ∧ LinkedInLeadScraper.email_confidence pd' = None.
Proof.
  destruct (merge_keeps_profile Example.acme_get Example.acme_find
              (WebsiteAnalyzer._analyze_contact_page Example.acme_get) Example2.jane)
    as (pd' & Hm & _ & Hkeep).
  exists pd'. split; [exact Hm |]. apply Hkeep. reflexivity.
Defined.

Lemma generated_tag_means_first_candidate_witness :
  ∃ first_name last_name domain,
    head (Spec.name_tokens "John Ronald Smith") = Some first_name
    ∧ last (Spec.name_tokens "John Ronald Smith") = Some last_name
    ∧ Spec.website_domain "https://www.initech.com/home" = Some domain
    ∧ Some "john.smith@initech.com" = Some (first_name ++ "." ++ last_name ++ "@" ++ domain).
Proof.
  apply (generated_tag_means_first_candidate Example.acme_get Example.acme_find
           (WebsiteAnalyzer._analyze_contact_page Example.acme_get) Example2.john
           (LinkedInLeadScraper.set_confidence "Generated"
              (LinkedInLeadScraper.set_email (Some "john.smith@initech.com")
                 (LinkedInLeadScraper.set_contact [] [] ∅ Example2.john)))).
  - vm_compute; reflexivity.
  - reflexivity.
  - reflexivity.
  - vm_compute. intros H. by apply elem_of_nil in H.
Defined.
